(** * Mirror-table validation (bench/workgen/validate_mirror_tables.py)

    A shallow embedding of the Workgen mirror validator: the Python string
    operations it relies on, the metadata parser [get_mirror_file], the pair
    collector [get_mirrors], the catalog scan [get_wiredtiger_db_files] and
    the driver [main], followed by the properties of the design document
    that are settled against them.

    Conventions.  A Python [str] is a [string] whose characters are code
    points below 256.  A Python exception is a value of [exn]; a call that
    may raise returns an [outcome].  Calls into the storage engine and the
    comparison utility are recorded as [event]s, in program order. *)

From Stdlib Require Import ZArith Ascii String DecimalString.
From stdpp Require Import base option list gmap strings.

Local Open Scope string_scope.
Local Open Scope list_scope.

(** ** Python values and exceptions *)

(** The [code] attribute of a [SystemExit]: [sys.exit()] leaves it [None],
    [sys.exit(n)] stores the integer, [sys.exit("text")] the text. *)
Inductive exit_code : Type :=
  | CodeNone
  | CodeInt (n : Z)
  | CodeStr (s : string).

(** Exceptions, by what the handlers of the program can tell apart:
    instances of [Exception] carry their class name; [SystemExit] carries
    its code; every other [BaseException] (KeyboardInterrupt, ...) is
    caught by neither [except Exception] nor [except SystemExit]. *)
Inductive exn : Type :=
  | Exc (cls : string)
  | SystemExit (code : exit_code)
  | BaseExc (cls : string).

Inductive outcome (A : Type) : Type :=
  | Ret (a : A)
  | Raise (e : exn).
Arguments Ret {A} a.
Arguments Raise {A} e.

Definition KeyError : exn := Exc "KeyError".
Definition ValueError : exn := Exc "ValueError".
Definition IndexError : exn := Exc "IndexError".
Definition UnboundLocalError : exn := Exc "UnboundLocalError".

(** ** Python string operations *)

Module PyStr.

Definition code (c : ascii) : N := N_of_ascii c.

(** [str.isspace] on one character, for code points below 256:
    U+0009..U+000D, U+001C..U+0020, U+0085 and U+00A0. *)
Definition isspace (c : ascii) : bool :=
  let n := code c in
  ((9 <=? n) && (n <=? 13) || (28 <=? n) && (n <=? 32)
   || (n =? 133) || (n =? 160))%N.

Fixpoint lstrip (s : string) : string :=
  match s with
  | EmptyString => EmptyString
  | String c s' => if isspace c then lstrip s' else s
  end.

Fixpoint rstrip (s : string) : string :=
  match s with
  | EmptyString => EmptyString
  | String c s' =>
      match rstrip s' with
      | EmptyString => if isspace c then EmptyString else String c EmptyString
      | r => String c r
      end
  end.

(** [s.strip()] *)
Definition strip (s : string) : string := rstrip (lstrip s).

(** [s.split(sep)] for a one-character separator: every occurrence
    splits, and the result always has at least one element. *)
Fixpoint split (sep : ascii) (s : string) : list string :=
  match s with
  | EmptyString => [EmptyString]
  | String c s' =>
      if Ascii.eqb c sep then EmptyString :: split sep s'
      else match split sep s' with
           | h :: t => String c h :: t
           | [] => [String c EmptyString]
           end
  end.

(** Number of occurrences of a character. *)
Fixpoint count (sep : ascii) (s : string) : nat :=
  match s with
  | EmptyString => 0
  | String c s' => (if Ascii.eqb c sep then 1 else 0) + count sep s'
  end.

(** [s.startswith(p)] *)
Definition startswith (p s : string) : bool := String.prefix p s.

(** [s[i:-j]]: from index [i] up to [j] characters before the end;
    empty when the two bounds cross. *)
Definition slice_from_to_end (i j : nat) (s : string) : string :=
  String.substring i (String.length s - j - i) s.

(** The remainder of [s] after the prefix [p], when [s] starts with [p]. *)
Fixpoint strip_prefix (p s : string) : option string :=
  match p, s with
  | EmptyString, _ => Some s
  | String a p', String b s' =>
      if Ascii.eqb a b then strip_prefix p' s' else None
  | String _ _, EmptyString => None
  end.

(** The longest run of characters other than [q] at the head of [s],
    and what follows the [q] that ends it; [None] when [s] has no [q]. *)
Fixpoint break_at (q : ascii) (s : string) : option (string * string) :=
  match s with
  | EmptyString => None
  | String c s' =>
      if Ascii.eqb c q then Some (EmptyString, s')
      else match break_at q s' with
           | Some (g, rest) => Some (String c g, rest)
           | None => None
           end
  end.

(** [re.findall] for the pattern made of a literal [lit], a group of
    zero or more characters other than [q], and a closing [q]: the groups
    of the non-overlapping matches, leftmost first.  At a position where [lit] matches, the group is the run up
    to the next [q] (the class excludes [q], so no shorter or longer run
    is followed by [q]); the scan resumes after the match.  Where no
    match starts, the scan moves one character on.  [fuel] bounds the
    number of scan steps; each step consumes a character. *)
Fixpoint findall_quoted_fuel (fuel : nat) (lit : string) (q : ascii)
    (s : string) : list string :=
  match fuel with
  | O => []
  | S fuel' =>
      match s with
      | EmptyString =>
          match strip_prefix lit s with
          | Some rest =>
              match break_at q rest with
              | Some (g, _) => [g]
              | None => []
              end
          | None => []
          end
      | String _ s' =>
          match strip_prefix lit s with
          | Some rest =>
              match break_at q rest with
              | Some (g, rest') => g :: findall_quoted_fuel fuel' lit q rest'
              | None => findall_quoted_fuel fuel' lit q s'
              end
          | None => findall_quoted_fuel fuel' lit q s'
          end
      end
  end.

Definition findall_quoted (lit : string) (q : ascii) (s : string)
    : list string :=
  findall_quoted_fuel (S (String.length s)) lit q s.

(** Decimal rendering of a length, as [f"{len(x)}"] prints it. *)
Definition str_of_nat (n : nat) : string :=
  NilEmpty.string_of_uint (Nat.to_uint n).

(** The double-quote character, code point 34. *)
Definition dquote : ascii := "034"%char.

Definition hex_digit (n : N) : ascii :=
  match n with
  | 0 => "0" | 1 => "1" | 2 => "2" | 3 => "3" | 4 => "4" | 5 => "5"
  | 6 => "6" | 7 => "7" | 8 => "8" | 9 => "9" | 10 => "a" | 11 => "b"
  | 12 => "c" | 13 => "d" | 14 => "e" | _ => "f"
  end%N%char.

Fixpoint contains (c : ascii) (s : string) : bool :=
  match s with
  | EmptyString => false
  | String a s' => Ascii.eqb a c || contains c s'
  end.

(** [str.isprintable] on one code point below 256. *)
Definition isprintable (c : ascii) : bool :=
  let n := code c in
  ((32 <=? n) && (n <=? 126) || (161 <=? n) && negb (n =? 173))%N.

(** One character of [repr(s)] with [q] as the enclosing quote. *)
Definition repr_char (q c : ascii) : string :=
  if Ascii.eqb c q || Ascii.eqb c "\"%char
  then String "\"%char (String c EmptyString)
  else if (code c =? 9)%N then "\t"
  else if (code c =? 10)%N then "\n"
  else if (code c =? 13)%N then "\r"
  else if isprintable c then String c EmptyString
  else String "\"%char (String "x"%char
         (String (hex_digit (code c / 16)) (String (hex_digit (code c mod 16))
            EmptyString))).

Fixpoint repr_body (q : ascii) (s : string) : string :=
  match s with
  | EmptyString => EmptyString
  | String c s' => repr_char q c +:+ repr_body q s'
  end.

(** [repr(s)] of a [str]: single quotes, unless the text has a single
    quote and no double quote. *)
Definition repr (s : string) : string :=
  let q := if contains "'"%char s && negb (contains dquote s)
           then dquote else "'"%char in
  String q (repr_body q s +:+ String q EmptyString).

End PyStr.

(** ** MirrorResolver: [get_mirror_file] *)

(** The metadata cursor as [get_mirror_file] uses it: [metadata_cursor[key]]
    returns the record's configuration string or raises. *)
Definition cursor_lookup : Type := string -> outcome string.

(** A cursor over a catalog held as a finite map: a key that is absent
    raises the engine's not-found condition, [KeyError]. *)
Definition cursor_of_catalog (catalog : gmap string string) : cursor_lookup :=
  fun key =>
    match catalog !! key with
    | Some config => Ret config
    | None => Raise KeyError
    end.

(** The [re.findall] call of [get_mirror_file]: the literal [app_metadata=],
    a double quote, a group of zero or more characters other than the double
    quote, and a closing double quote. *)
Definition findall_app_metadata (metadata : string) : list string :=
  PyStr.findall_quoted ("app_metadata=" +:+ String PyStr.dquote EmptyString)
    PyStr.dquote metadata.

(** [dict((a.strip(), b.strip()) for a, b in (element.split('=') for element
    in elements))]: each element must split into exactly two parts, or the
    unpacking [a, b] raises [ValueError]; a key met again replaces the
    earlier value. *)
Fixpoint build_app_metadata (elements : list string)
    (acc : gmap string string) : outcome (gmap string string) :=
  match elements with
  | [] => Ret acc
  | element :: elements' =>
      match PyStr.split "=" element with
      | [a; b] =>
          build_app_metadata elements' (<[PyStr.strip a := PyStr.strip b]> acc)
      | _ => Raise ValueError
      end
  end.

Definition parse_app_metadata (quoted : string) : outcome (gmap string string) :=
  build_app_metadata (PyStr.split "," quoted) ∅.

(** The state of the local [metadata] after the [try] statement of
    [get_mirror_file]: the function has returned or the exception goes on
    ([inl]), or control reaches the next statement with [metadata] bound
    ([inr (Some _)]) or never assigned ([inr None]). *)
Definition lookup_metadata (metadata_cursor : cursor_lookup) (filename : string)
    : outcome (option string) + option string :=
  match metadata_cursor filename with
  | Ret metadata => inr (Some metadata)
  | Raise (Exc cls) =>
      if String.eqb cls "KeyError" then inl (Ret None) else inr None
  | Raise e => inl (Raise e)
  end.

Definition get_mirror_file (metadata_cursor : cursor_lookup) (filename : string)
    : outcome (option string) :=
  match lookup_metadata metadata_cursor filename with
  | inl finished => finished
  | inr None => Raise UnboundLocalError
  | inr (Some metadata) =>
      match findall_app_metadata metadata with
      | [] => Ret None
      | result0 :: _ =>
          match parse_app_metadata result0 with
          | Raise e => Raise e
          | Ret app_metadata =>
              if bool_decide (app_metadata !! "workgen_dynamic_table" = Some "true")
                 && bool_decide (app_metadata !! "workgen_table_mirror" ≠ None)
              then
                match app_metadata !! "workgen_table_mirror" with
                | None => Raise KeyError
                | Some mirror =>
                    match PyStr.split ":" mirror with
                    | _ :: name :: _ => Ret (Some name)
                    | _ => Raise IndexError
                    end
                end
              else Ret None
          end
      end
  end.

(** ** Calls into the collaborators *)

(** A mirror pair, [[base_uri, mirror_uri]] in the source. *)
Definition mirror_pair : Type := (string * string)%type.

(** What the process does to the outside, in program order.  [ConnOpen] is
    logged when [wiredtiger_open] has returned a connection; likewise an
    open or a close of a session or cursor is logged when the call has
    returned, so the log tells what is open.  A positioning, step, lookup
    or comparison call is logged when it is made.  [DevNull] is the text
    the comparison utility writes while standard output is redirected to
    the null device; [Print] is a line on the real standard output. *)
Inductive event : Type :=
  | ConnOpen (home config : string)
  | ConnClose
  | SessionOpen
  | SessionClose
  | CursorOpen (uri : string)
  | CursorClose
  | CursorSetKey (key : string)
  | CursorSearchNear
  | CursorNext
  | CursorGet (key : string)
  | Compare (item : mirror_pair)
  | DevNull (text : string)
  | Print (line : string).

(** A computation: the events it caused and how it ended. *)
Definition M (A : Type) : Type := (list event * outcome A)%type.

Definition ret {A} (a : A) : M A := ([], Ret a).
Definition raise {A} (e : exn) : M A := ([], Raise e).
Definition lift {A} (o : outcome A) : M A := ([], o).
Definition emit (ev : event) : M unit := ([ev], Ret tt).

Definition bind {A B} (m : M A) (k : A -> M B) : M B :=
  match m with
  | (t, Ret a) => (t ++ fst (k a), snd (k a))
  | (t, Raise e) => (t, Raise e)
  end.

Notation "'let!' x ':=' m 'in' k" := (bind m (fun x => k))
  (at level 10, x pattern, m at level 100, k at level 200).
Notation "m ';;' k" := (bind m (fun _ => k))
  (at level 100, k at level 200, right associativity).

Definition trace {A} (m : M A) : list event := fst m.
Definition result {A} (m : M A) : outcome A := snd m.

(** One run of [wiredtiger_compare_uri(item)]: the text it writes to
    standard output and how it ends (a returned value, or an exception such
    as the [SystemExit] of its [sys.exit]). *)
Record compare_run : Type := {
  cmp_text : string;
  cmp_end : outcome (option string)
}.

(** The behaviour of the collaborators during one run of the program. *)
Record world : Type := {
  (** [wiredtiger_open(db_dir, 'readonly')] *)
  w_open : string -> outcome unit;
  (** [c.search_near()] on the scan cursor *)
  w_search_near : outcome unit;
  (** the keys [for k,_ in c] yields after the positioning, in order *)
  w_keys : list string;
  (** what follows the last key: exhaustion ([Ret]) or an exception *)
  w_iter_end : outcome unit;
  (** [metadata_cursor[key]] *)
  w_lookup : cursor_lookup;
  (** [wiredtiger_compare_uri(item)] *)
  w_compare : mirror_pair -> compare_run
}.

(** ** usage_exit *)

Definition usage_line1 : string :=
  "Usage: python3 validate_mirror_tables database_dir".
Definition usage_line2 : string :=
  "  database_dir is a POSIX pathname to a WiredTiger home directory".

Definition sys_exit {A} (n : Z) : M A := raise (SystemExit (CodeInt n)).

Definition usage_exit : M unit :=
  emit (Print usage_line1);;
  emit (Print usage_line2);;
  sys_exit 1.

(** ** CatalogScanner: [get_wiredtiger_db_files] *)

Definition prefix : string := "file:".

(** The [for k,_ in c] loop: every step asks the cursor for its next
    record; [break] leaves the loop without asking again. *)
Fixpoint scan_loop (keys : list string) (iter_end : outcome unit)
    (files : list string) : M (list string) :=
  match keys with
  | [] => emit CursorNext;; lift iter_end;; ret files
  | k :: keys' =>
      emit CursorNext;;
      if negb (PyStr.startswith prefix k) then ret files
      else if PyStr.startswith (prefix +:+ "WiredTiger") k
      then scan_loop keys' iter_end files
      else scan_loop keys' iter_end
             (files ++ [PyStr.slice_from_to_end (String.length prefix) 3 k])
  end.

(** The scan in a run in which opening and closing the session and the
    cursor, and [c.set_key], succeed; [Engine.get_wiredtiger_db_files]
    below lets each of these calls raise as well. *)
Definition get_wiredtiger_db_files (w : world) : M (list string) :=
  emit SessionOpen;;
  emit (CursorOpen "metadata:");;
  emit (CursorSetKey prefix);;
  emit CursorSearchNear;;
  lift (w_search_near w);;
  let! files := scan_loop (w_keys w) (w_iter_end w) [] in
  emit CursorClose;;
  emit SessionClose;;
  ret files.

(** ** PairCollector: [get_mirrors] *)

Definition table_key (filename : string) : string := "table:" +:+ filename.

(** [f'{db_dir}/table:{filename}'] *)
Definition table_uri (db_dir filename : string) : string :=
  db_dir +:+ "/table:" +:+ filename.

(** Truth value of a [str]: only the empty one is false. *)
Definition str_truthy (s : string) : bool :=
  match s with EmptyString => false | _ => true end.

Section PairCollector.

(** The mirror lookup, [get_mirror_file(metadata_cursor, key)] in the
    source; any lookup will do for the loop. *)
Variable resolve : string -> M (option string).
Variable db_dir : string.

(** The [for filename in db_files] loop, from the state
    ([db_files_remaining], [mirrors]) it has reached. *)
Fixpoint get_mirrors_loop (db_files : list string)
    (db_files_remaining : gset string) (mirrors : list mirror_pair)
    : M (list mirror_pair) :=
  match db_files with
  | [] => ret mirrors
  | filename :: db_files' =>
      if bool_decide (filename ∈ db_files_remaining) then
        let remaining := db_files_remaining ∖ {[filename]} in
        let! mirror_filename := resolve (table_key filename) in
        match mirror_filename with
        | None => get_mirrors_loop db_files' remaining mirrors
        | Some mirror_name =>
            if str_truthy mirror_name
               && bool_decide (mirror_name ∈ remaining)
            then get_mirrors_loop db_files'
                   (remaining ∖ {[mirror_name]})
                   (mirrors ++ [(table_uri db_dir filename,
                                 table_uri db_dir mirror_name)])
            else get_mirrors_loop db_files' remaining mirrors
        end
      else get_mirrors_loop db_files' db_files_remaining mirrors
  end.

(** [get_mirrors] over an arbitrary lookup, in a run in which opening and
    closing the session and the cursor succeed; [Engine.get_mirrors] below
    lets each of these calls raise as well. *)
Definition get_mirrors_with (db_files : list string)
    : M (list mirror_pair) :=
  emit SessionOpen;;
  emit (CursorOpen "metadata:");;
  let! mirrors := get_mirrors_loop db_files (list_to_set db_files) [] in
  emit CursorClose;;
  emit SessionClose;;
  ret mirrors.

End PairCollector.

(** [get_mirror_file(metadata_cursor, key)] on the metadata cursor of the
    world: the keyed lookup is one call into the engine. *)
Definition resolve_in (w : world) (key : string) : M (option string) :=
  emit (CursorGet key);;
  lift (get_mirror_file (w_lookup w) key).

Definition get_mirrors (w : world) (db_dir : string) (db_files : list string)
    : M (list mirror_pair) :=
  get_mirrors_with (resolve_in w) db_dir db_files.

(** ** The two scans with every engine call able to fail *)

(** How the session and cursor management calls of one function end:
    [connection.open_session()], [session.open_cursor('metadata:', None,
    None)], [c.set_key(prefix)] (made by the catalog scan only),
    [c.close()] and [session.close()]. *)
Record handles : Type := {
  h_open_session : outcome unit;
  h_open_cursor : outcome unit;
  h_set_key : outcome unit;
  h_cursor_close : outcome unit;
  h_session_close : outcome unit
}.

(** The management calls all succeed. *)
Definition calm : handles :=
  {| h_open_session := Ret tt;
     h_open_cursor := Ret tt;
     h_set_key := Ret tt;
     h_cursor_close := Ret tt;
     h_session_close := Ret tt |}.

(** [get_wiredtiger_db_files] and [get_mirrors] statement by statement,
    every call on the connection, the session and the cursor ending as the
    [handles] and the [world] say.  The definitions of the same names
    above are these two at [calm] handles ([calm_get_wiredtiger_db_files],
    [calm_get_mirrors]). *)
Module Engine.

Definition get_wiredtiger_db_files (h : handles) (w : world)
    : M (list string) :=
  lift (h_open_session h);;
  emit SessionOpen;;
  lift (h_open_cursor h);;
  emit (CursorOpen "metadata:");;
  emit (CursorSetKey prefix);;
  lift (h_set_key h);;
  emit CursorSearchNear;;
  lift (w_search_near w);;
  let! files := scan_loop (w_keys w) (w_iter_end w) [] in
  lift (h_cursor_close h);;
  emit CursorClose;;
  lift (h_session_close h);;
  emit SessionClose;;
  ret files.

Definition get_mirrors (h : handles) (w : world) (db_dir : string)
    (db_files : list string) : M (list mirror_pair) :=
  lift (h_open_session h);;
  emit SessionOpen;;
  lift (h_open_cursor h);;
  emit (CursorOpen "metadata:");;
  let! mirrors := get_mirrors_loop (resolve_in w) db_dir db_files
                    (list_to_set db_files) [] in
  lift (h_cursor_close h);;
  emit CursorClose;;
  lift (h_session_close h);;
  emit SessionClose;;
  ret mirrors.

End Engine.

(** ** ValidationRunner and ReportAggregator: [main] *)

(** [e.code != 0] *)
Definition code_nonzero (c : exit_code) : bool :=
  match c with
  | CodeInt n => negb (n =? 0)%Z
  | CodeNone | CodeStr _ => true
  end.

(** [str(item)] of a two-element list of strings. *)
Definition str_of_item (item : mirror_pair) : string :=
  "[" +:+ PyStr.repr (fst item) +:+ ", " +:+ PyStr.repr (snd item) +:+ "]".

(** [str(x)] of a value that is [None] or a string. *)
Definition str_of_optional (x : option string) : string :=
  match x with
  | None => "None"
  | Some s => s
  end.

(** [f"Mirror mismatch {item}: {stdout}"] *)
Definition mismatch_line (item : mirror_pair) (stdout : option string) : string :=
  "Mirror mismatch " +:+ str_of_item item +:+ ": " +:+ str_of_optional stdout.

Definition success_line (n : nat) (db_dir : string) : string :=
  "Successfully validated " +:+ PyStr.str_of_nat n +:+ " table mirrors in "
  +:+ "database directory '" +:+ db_dir +:+ "'.".

Definition failure_line (failure_count n : nat) (db_dir : string) : string :=
  "Mirrored table validation failed for " +:+ PyStr.str_of_nat failure_count
  +:+ " of " +:+ PyStr.str_of_nat n +:+ " table mirrors in database directory '"
  +:+ db_dir +:+ "'.".

(** The [for item in mirrors] loop.  [stdout] is [None] when the call
    starts and is assigned only if the call returns; an exception leaves
    the [try] block before the assignment. *)
Fixpoint validate_loop (w : world) (mirrors : list mirror_pair)
    (failure_count : nat) : M nat :=
  match mirrors with
  | [] => ret failure_count
  | item :: mirrors' =>
      let stdout : option string := None in
      emit (Compare item);;
      emit (DevNull (cmp_text (w_compare w item)));;
      match cmp_end (w_compare w item) with
      | Ret _ => validate_loop w mirrors' failure_count
      | Raise (SystemExit code) =>
          if code_nonzero code then
            emit (Print (mismatch_line item stdout));;
            validate_loop w mirrors' (failure_count + 1)
          else validate_loop w mirrors' failure_count
      | Raise e => raise e
      end
  end.

Definition main (w : world) (sysargs : list string) : M unit :=
  (if negb (length sysargs =? 1)%nat then usage_exit else ret tt);;
  match sysargs with
  | [] => raise IndexError
  | db_dir :: _ =>
      lift (w_open w db_dir);;
      emit (ConnOpen db_dir "readonly");;
      let! db_files := get_wiredtiger_db_files w in
      let! mirrors := get_mirrors w db_dir db_files in
      emit ConnClose;;
      let! failure_count := validate_loop w mirrors 0 in
      (if (failure_count =? 0)%nat
       then emit (Print (success_line (length mirrors) db_dir))
       else emit (Print (failure_line failure_count (length mirrors) db_dir)));;
      sys_exit (if (0 <? failure_count)%nat then 1 else 0)
  end.

(** The statements of [main] that follow [connection.close()]. *)
Definition validate_and_report (w : world) (db_dir : string)
    (mirrors : list mirror_pair) : M unit :=
  let! failure_count := validate_loop w mirrors 0 in
  (if (failure_count =? 0)%nat
   then emit (Print (success_line (length mirrors) db_dir))
   else emit (Print (failure_line failure_count (length mirrors) db_dir)));;
  sys_exit (if (0 <? failure_count)%nat then 1 else 0).

(** The exit status CPython gives the process on a POSIX system with a
    64-bit C long when [main] ends.  A [SystemExit] that reaches the top
    level gives its code: [None] counts as 0, an integer is cut to its low
    eight bits, or is 255 when it does not fit a C long, and a text is
    printed and gives 1.  An uncaught KeyboardInterrupt ends the process
    by the interrupt signal, which the shell reports as 130.  Any other
    uncaught exception gives 1. *)
Definition exit_status (r : outcome unit) : Z :=
  match r with
  | Ret _ => 0
  | Raise (SystemExit CodeNone) => 0
  | Raise (SystemExit (CodeInt n)) =>
      if (- 2 ^ 63 <=? n)%Z && (n <? 2 ^ 63)%Z then n mod 256 else 255
  | Raise (SystemExit (CodeStr _)) => 1
  | Raise (BaseExc cls) =>
      if String.eqb cls "KeyboardInterrupt" then 130 else 1
  | Raise (Exc _) => 1
  end.

(** ** Properties of event traces *)

Definition is_scan_event (ev : event) : bool :=
  match ev with
  | SessionOpen | SessionClose | CursorOpen _ | CursorClose
  | CursorSetKey _ | CursorSearchNear | CursorNext | CursorGet _ => true
  | _ => false
  end.

Definition is_validation_event (ev : event) : bool :=
  match ev with
  | Compare _ | DevNull _ | Print _ => true
  | _ => false
  end.

Definition is_compare (ev : event) : bool :=
  match ev with Compare _ => true | _ => false end.

Definition is_conn_open (ev : event) : bool :=
  match ev with ConnOpen _ _ => true | _ => false end.

Definition is_conn_close (ev : event) : bool :=
  match ev with ConnClose => true | _ => false end.

(** Every event of a trace is of the kind [f]. *)
Definition only (f : event -> bool) (t : list event) : Prop :=
  Forall (fun ev => f ev = true) t.

Definition count_events (f : event -> bool) (t : list event) : nat :=
  length (filter (fun ev => f ev = true) t).

(** Some scan or comparison call is made after a [ConnClose]. *)
Fixpoint work_after_close (t : list event) : bool :=
  match t with
  | [] => false
  | ev :: t' =>
      (is_conn_close ev
       && existsb (fun ev' => is_scan_event ev' || is_compare ev') t')
      || work_after_close t'
  end.

(** The connection discipline as the design document words it: one open,
    one close, and the close after all scanning and comparison work. *)
Definition closes_after_all_work (t : list event) : Prop :=
  count_events is_conn_open t = 1 /\ count_events is_conn_close t = 1 /\
  work_after_close t = false.


(** The lines printed on standard output. *)
Definition printed (t : list event) : list string :=
  omap (fun ev => match ev with Print line => Some line | _ => None end) t.

Definition is_cursor_next (ev : event) : bool :=
  match ev with CursorNext => true | _ => false end.



(** ** Mirror configuration of a table, read off its own record *)

(** The application metadata of table [T] in a catalog: the parsed first
    quoted [app_metadata] of its record, when the record exists, has one
    and it parses. *)
Definition own_app_metadata (catalog : gmap string string) (T : string)
    : option (gmap string string) :=
  match catalog !! table_key T with
  | None => None
  | Some config =>
      match findall_app_metadata config with
      | [] => None
      | quoted :: _ =>
          match parse_app_metadata quoted with
          | Ret d => Some d
          | Raise _ => None
          end
      end
  end.

(** [T]'s own metadata has [workgen_dynamic_table=true] and has a
    [workgen_table_mirror] entry. *)
Definition has_mirror_config (catalog : gmap string string) (T : string) : bool :=
  match own_app_metadata catalog T with
  | None => false
  | Some d =>
      bool_decide (d !! "workgen_dynamic_table" = Some "true")
      && bool_decide (is_Some (d !! "workgen_table_mirror"))
  end.

(** ** Table locations named by a pair list *)

(** Both sides of every pair, in order of emission. *)
Definition sides (mirrors : list mirror_pair) : list string :=
  flat_map (fun item => [fst item; snd item]) mirrors.

(** ** Scenarios *)

Definition in_quotes (s : string) : string :=
  String PyStr.dquote (s +:+ String PyStr.dquote EmptyString).

(** The configuration string of a table record whose application metadata
    is the quoted text [app]. *)
Definition table_config (app : string) : string :=
  "app_metadata=" +:+ in_quotes app
  +:+ ",colgroups=,collator=,columns=,key_format=S,value_format=S".

(** The configuration string of a table created without application
    metadata. *)
Definition plain_config : string :=
  "app_metadata=,colgroups=,collator=,columns=,key_format=S,value_format=S".

Definition mirror_of (name : string) : string :=
  "workgen_dynamic_table=true,workgen_table_mirror=table:" +:+ name.

(** A world in which the engine never fails. *)
Definition healthy_world (keys : list string) (catalog : gmap string string)
    (compare : mirror_pair -> compare_run) : world :=
  {| w_open := fun _ => Ret tt;
     w_search_near := Ret tt;
     w_keys := keys;
     w_iter_end := Ret tt;
     w_lookup := cursor_of_catalog catalog;
     w_compare := compare |}.

Definition compare_match (_ : mirror_pair) : compare_run :=
  {| cmp_text := ""; cmp_end := Raise (SystemExit (CodeInt 0)) |}.

Definition compare_mismatch (_ : mirror_pair) : compare_run :=
  {| cmp_text := "Mismatched value at key 17";
     cmp_end := Raise (SystemExit (CodeInt 1)) |}.

(** [orders] and [orders_mirror], each naming the other. *)
Definition orders_catalog : gmap string string :=
  <[ "table:orders" := table_config (mirror_of "orders_mirror") ]>
  (<[ "table:orders_mirror" := table_config (mirror_of "orders") ]> ∅).

Definition orders_keys : list string :=
  [ "file:WiredTiger.wt"; "file:WiredTigerHS.wt"; "file:orders.wt";
    "file:orders_mirror.wt"; "table:orders"; "table:orders_mirror" ].

(** [orders] names [orders_mirror], which was dropped. *)
Definition dropped_catalog : gmap string string :=
  <[ "table:orders" := table_config (mirror_of "orders_mirror") ]> ∅.

Definition dropped_keys : list string :=
  [ "file:WiredTiger.wt"; "file:WiredTigerHS.wt"; "file:orders.wt";
    "table:orders" ].

(** [a] names [b]; [b] carries no application metadata of its own. *)
Definition one_sided_catalog : gmap string string :=
  <[ "table:a" := table_config (mirror_of "b") ]>
  (<[ "table:b" := plain_config ]> ∅).

(** A record whose quoted application metadata has an element without [=]. *)
Definition malformed_catalog : gmap string string :=
  <[ "table:t" := table_config "workgen_dynamic_table" ]> ∅.

(** A world whose scan cursor fails to position. *)
Definition failing_scan_world : world :=
  {| w_open := fun _ => Ret tt;
     w_search_near := Raise (Exc "WiredTigerError");
     w_keys := [];
     w_iter_end := Ret tt;
     w_lookup := cursor_of_catalog ∅;
     w_compare := compare_match |}.

(** ** Reading the catalog scan and the validation off their inputs *)

(** The catalog key of the file of a table, as the engine names it. *)
Definition file_key (name : string) : string := prefix +:+ name +:+ ".wt".

(** The name [get_wiredtiger_db_files] derives from a key, [k[len(prefix):-3]]. *)
Definition file_name (k : string) : string :=
  PyStr.slice_from_to_end (String.length prefix) 3 k.

(** The keys the scan loop looks at before it stops on its own: the run of
    keys that start with the prefix. *)
Fixpoint leading_file_keys (keys : list string) : list string :=
  match keys with
  | [] => []
  | k :: keys' =>
      if PyStr.startswith prefix k then k :: leading_file_keys keys' else []
  end.

(** A key the scan keeps: it does not start with [file:WiredTiger]. *)
Definition user_file (k : string) : bool :=
  negb (PyStr.startswith (prefix +:+ "WiredTiger") k).

(** A table name the engine reserves for itself. *)
Definition is_internal (name : string) : bool :=
  PyStr.startswith "WiredTiger" name.


(** The keys looked up on the metadata cursor, in order. *)
Definition lookups (t : list event) : list string :=
  omap (fun ev => match ev with CursorGet key => Some key | _ => None end) t.

(** The pairs handed to the comparison utility, in order. *)
Definition compared (t : list event) : list mirror_pair :=
  omap (fun ev => match ev with Compare item => Some item | _ => None end) t.

(** The comparison of [item] ends with a [SystemExit] whose code differs
    from 0. *)
Definition mismatched (w : world) (item : mirror_pair) : bool :=
  match cmp_end (w_compare w item) with
  | Raise (SystemExit code) => code_nonzero code
  | _ => false
  end.

(** The comparison of [item] returns or ends with a [SystemExit]. *)
Definition ends_by_exit (w : world) (item : mirror_pair) : bool :=
  match cmp_end (w_compare w item) with
  | Ret _ | Raise (SystemExit _) => true
  | Raise _ => false
  end.

(** The pair [get_mirrors] emits for a base name and a mirror name. *)
Definition pair_of_names (db_dir : string) (names : string * string)
    : mirror_pair :=
  (table_uri db_dir (fst names), table_uri db_dir (snd names)).

(** What one emitted pair records: both tables were unconsumed, they
    differ, the mirror name is not empty, and the lookup of the base
    returned the mirror. *)
Definition emitted_from (resolve : string -> M (option string))
    (remaining : gset string) (names : string * string) : Prop :=
  fst names ∈ remaining /\ snd names ∈ remaining /\
  snd names <> fst names /\ snd names <> EmptyString /\
  result (resolve (table_key (fst names))) = Ret (Some (snd names)).

(** A list of strings with [t] appended to its last element. *)
Fixpoint append_last (parts : list string) (t : string) : list string :=
  match parts with
  | [] => []
  | [h] => [h +:+ t]
  | h :: parts' => h :: append_last parts' t
  end.

(** The record of a table as Workgen writes it for a mirrored table:
    the quoted application metadata comes first, [rest] follows it. *)
Definition workgen_record (mirror_name rest : string) : string :=
  "app_metadata=" +:+ String PyStr.dquote
    (mirror_of mirror_name +:+ String PyStr.dquote rest).

(** The open or the scan of [main] fails with [e]: [wiredtiger_open]
    raises it, or the catalog scan does, or the pair collection does on the
    list the scan returned. *)
Definition scan_fails (w : world) (db_dir : string) (e : exn) : Prop :=
  w_open w db_dir = Raise e \/
  (w_open w db_dir = Ret tt /\
   (result (get_wiredtiger_db_files w) = Raise e \/
    exists db_files,
      result (get_wiredtiger_db_files w) = Ret db_files /\
      result (get_mirrors w db_dir db_files) = Raise e)).

(** ** Basic facts *)

Section Computations.
Context {A B : Type}.

Lemma result_bind (m : M A) (k : A -> M B) :
  result (bind m k) =
  match result m with
  | Ret a => result (k a)
  | Raise e => Raise e
  end.
Proof. destruct m as [t [a | e]]; reflexivity. Qed.

Lemma trace_bind (m : M A) (k : A -> M B) :
  trace (bind m k) =
  match result m with
  | Ret a => trace m ++ trace (k a)
  | Raise _ => trace m
  end.
Proof. destruct m as [t [a | e]]; reflexivity. Qed.

End Computations.

Lemma append_cancel_l (p a b : string) : p +:+ a = p +:+ b -> a = b.
Proof.
  induction p as [| c p IH]; simpl; intros H; [exact H |].
  injection H as H. auto.
Qed.

Lemma table_key_inj (a b : string) : table_key a = table_key b -> a = b.
Proof. unfold table_key. apply append_cancel_l. Qed.

Lemma table_uri_inj (db_dir a b : string) :
  table_uri db_dir a = table_uri db_dir b -> a = b.
Proof.
  unfold table_uri. intros H.
  apply append_cancel_l in H. apply append_cancel_l in H. exact H.
Qed.

Module PyStrFacts.
Import PyStr.

Lemma split_length (sep : ascii) (s : string) :
  length (split sep s) = S (count sep s).
Proof.
  induction s as [| c s IH]; simpl; [reflexivity |].
  destruct (Ascii.eqb c sep); simpl.
  - now rewrite IH.
  - destruct (split sep s) as [| h t]; simpl in *; [discriminate | exact IH].
Qed.

Lemma strip_prefix_length (p s rest : string) :
  strip_prefix p s = Some rest -> String.length rest <= String.length s.
Proof.
  revert s. induction p as [| a p IH]; intros [| b s]; simpl; intros H;
    try discriminate.
  - injection H as <-. simpl. lia.
  - injection H as <-. simpl. lia.
  - destruct (Ascii.eqb a b); [| discriminate].
    apply IH in H. lia.
Qed.

Lemma break_at_length (q : ascii) (s g rest : string) :
  break_at q s = Some (g, rest) -> String.length rest < String.length s.
Proof.
  revert g. induction s as [| c s IH]; simpl; intros g H; [discriminate |].
  destruct (Ascii.eqb c q).
  - injection H as _ <-. lia.
  - destruct (break_at q s) as [[g' r'] |]; [| discriminate].
    injection H as _ <-. specialize (IH g' eq_refl). lia.
Qed.

(** The scan of [findall_quoted] never runs out of fuel: any two supplies
    larger than the text give the same list. *)
Lemma findall_quoted_fuel_enough (lit : string) (q : ascii) (n m : nat)
    (s : string) :
  String.length s < n -> String.length s < m ->
  findall_quoted_fuel n lit q s = findall_quoted_fuel m lit q s.
Proof.
  revert m s. induction n as [| n IH]; intros m s Hn Hm; [lia |].
  destruct m as [| m]; [lia |].
  destruct s as [| c s]; simpl; [reflexivity |].
  simpl in Hn, Hm.
  destruct (strip_prefix lit (String c s)) as [rest |] eqn:Hp.
  - destruct (break_at q rest) as [[g rest'] |] eqn:Hb.
    + f_equal. apply strip_prefix_length in Hp. apply break_at_length in Hb.
      simpl in Hp. apply IH; lia.
    + apply IH; lia.
  - apply IH; lia.
Qed.

End PyStrFacts.

(** The string operations on inputs whose Python results are known. *)

Example split_commas :
  PyStr.split "," "a,b,,c" = ["a"; "b"; ""; "c"].
Proof. reflexivity. Qed.

Example split_empty : PyStr.split "=" "" = [""].
Proof. reflexivity. Qed.

Example strip_both_ends : PyStr.strip "  key name 	" = "key name".
Proof. reflexivity. Qed.

Example slice_table_name :
  PyStr.slice_from_to_end 5 3 "file:orders.wt" = "orders".
Proof. reflexivity. Qed.

Example slice_crossed_bounds : PyStr.slice_from_to_end 5 3 "file:a" = "".
Proof. reflexivity. Qed.

Example findall_two_matches :
  findall_app_metadata
    ("x,app_metadata=" +:+ in_quotes "k=v" +:+ ",app_metadata="
     +:+ in_quotes "" +:+ ",y")
  = ["k=v"; ""].
Proof. reflexivity. Qed.

Example findall_unclosed_quote :
  findall_app_metadata ("app_metadata=" +:+ String PyStr.dquote "k=v") = [].
Proof. reflexivity. Qed.

Example findall_unquoted : findall_app_metadata plain_config = [].
Proof. reflexivity. Qed.

Example repr_plain : PyStr.repr "db/table:a" = "'db/table:a'".
Proof. reflexivity. Qed.

Example repr_single_quote : PyStr.repr "it's" = in_quotes "it's".
Proof. reflexivity. Qed.

Example str_of_nat_120 : PyStr.str_of_nat 120 = "120".
Proof. reflexivity. Qed.

Example resolve_orders :
  get_mirror_file (cursor_of_catalog orders_catalog) "table:orders"
  = Ret (Some "orders_mirror").
Proof. vm_compute. reflexivity. Qed.

Example resolve_absent :
  get_mirror_file (cursor_of_catalog orders_catalog) "table:customers"
  = Ret None.
Proof. vm_compute. reflexivity. Qed.

Example resolve_no_separator :
  get_mirror_file
    (cursor_of_catalog
       (<[ "table:t" := table_config
             "workgen_dynamic_table=true,workgen_table_mirror=orders" ]> ∅))
    "table:t"
  = Raise IndexError.
Proof. vm_compute. reflexivity. Qed.

(** ** MirrorResolver *)

Lemma build_app_metadata_malformed (elements : list string) :
  Exists (fun element => PyStr.count "=" element <> 1) elements ->
  forall acc, build_app_metadata elements acc = Raise ValueError.
Proof.
  induction 1 as [element rest Hbad | element rest _ IH]; intros acc; simpl.
  - pose proof (PyStrFacts.split_length "=" element) as Hlen.
    destruct (PyStr.split "=" element) as [| a [| b [| c parts]]];
      try reflexivity.
    simpl in Hlen. congruence.
  - destruct (PyStr.split "=" element) as [| a [| b [| c parts]]];
      try reflexivity.
    apply IH.
Qed.

(** C1.  When the record of a table is found and its first quoted
    application metadata has an element with no [=] or with more than one
    [=], [get_mirror_file] does not return "no mirror": the tuple unpacking
    raises ValueError, which leaves the function. *)
Theorem get_mirror_file_malformed_raises
    (metadata_cursor : cursor_lookup) (filename metadata quoted : string)
    (others : list string) :
  metadata_cursor filename = Ret metadata ->
  findall_app_metadata metadata = quoted :: others ->
  Exists (fun element => PyStr.count "=" element <> 1)
         (PyStr.split "," quoted) ->
  get_mirror_file metadata_cursor filename = Raise ValueError.
Proof.
  intros Hget Hfind Hbad.
  unfold get_mirror_file, lookup_metadata. rewrite Hget, Hfind.
  unfold parse_app_metadata.
  now rewrite (build_app_metadata_malformed _ Hbad).
Qed.

Lemma get_mirror_file_malformed_raises_witness :
  get_mirror_file (cursor_of_catalog malformed_catalog) "table:t"
  = Raise ValueError.
Proof.
  apply (get_mirror_file_malformed_raises (cursor_of_catalog malformed_catalog)
           "table:t" (table_config "workgen_dynamic_table")
           "workgen_dynamic_table" []).
  - vm_compute. reflexivity.
  - vm_compute. reflexivity.
  - apply Exists_cons_hd. vm_compute. discriminate.
Defined.




(** ** PairCollector *)

Section PairCollectorFacts.

Variable resolve : string -> M (option string).
Variable db_dir : string.

Lemma sides_snoc (mirrors : list mirror_pair) (item : mirror_pair) :
  sides (mirrors ++ [item]) = sides mirrors ++ [fst item; snd item].
Proof. unfold sides. rewrite flat_map_app. simpl. reflexivity. Qed.

Lemma get_mirrors_with_result (db_files : list string) :
  result (get_mirrors_with resolve db_dir db_files)
  = result (get_mirrors_loop resolve db_dir db_files (list_to_set db_files) []).
Proof.
  unfold get_mirrors_with. rewrite !result_bind. simpl.
  destruct (result (get_mirrors_loop _ _ _ _ _)); reflexivity.
Qed.

(** Loop invariant: the sides emitted so far are pairwise distinct, and
    none of them is the location of a table that is still remaining. *)
Lemma get_mirrors_loop_exclusive (db_files : list string) :
  forall (remaining : gset string) (mirrors out : list mirror_pair),
    result (get_mirrors_loop resolve db_dir db_files remaining mirrors) = Ret out ->
    NoDup (sides mirrors) ->
    (forall name, name ∈ remaining -> table_uri db_dir name ∉ sides mirrors) ->
    NoDup (sides out).
Proof.
  induction db_files as [| filename db_files' IH];
    intros remaining mirrors out Hres Hnodup Hfresh; simpl in Hres.
  - injection Hres as <-. exact Hnodup.
  - case_bool_decide as Hin; [| eauto].
    rewrite result_bind in Hres.
    destruct (result (resolve (table_key filename))) as [[mirror_name |] | e];
      [| | discriminate].
    + destruct (str_truthy mirror_name
                && bool_decide (mirror_name ∈ remaining ∖ {[filename]}))
        eqn:Hcond.
      * apply andb_prop in Hcond as [_ Hmem].
        apply bool_decide_eq_true in Hmem.
        apply elem_of_difference in Hmem as [Hmrem Hne].
        rewrite elem_of_singleton in Hne.
        apply IH in Hres; [exact Hres | |].
        -- rewrite sides_snoc. simpl fst; simpl snd.
           apply NoDup_app. split; [exact Hnodup |]. split.
           ++ intros x Hx Hx'.
              apply elem_of_cons in Hx' as [-> | Hx'];
                [exact (Hfresh _ Hin Hx) |].
              apply list_elem_of_singleton in Hx' as ->.
              exact (Hfresh _ Hmrem Hx).
           ++ apply NoDup_cons. split; [| apply NoDup_singleton].
              intros Hx. apply list_elem_of_singleton in Hx.
              apply table_uri_inj in Hx. congruence.
        -- intros name Hname. rewrite sides_snoc. simpl fst; simpl snd.
           apply elem_of_difference in Hname as [Hname Hnot_mirror].
           apply elem_of_difference in Hname as [Hname Hnot_base].
           rewrite elem_of_singleton in Hnot_mirror, Hnot_base.
           intros Hx. apply elem_of_app in Hx as [Hx | Hx].
           ++ exact (Hfresh name Hname Hx).
           ++ apply elem_of_cons in Hx as [Hx | Hx].
              ** apply table_uri_inj in Hx. contradiction.
              ** apply list_elem_of_singleton in Hx.
                 apply table_uri_inj in Hx. contradiction.
      * apply IH in Hres; [exact Hres | exact Hnodup |].
        intros name Hname. apply Hfresh.
        now apply elem_of_difference in Hname as [Hname _].
    + apply IH in Hres; [exact Hres | exact Hnodup |].
      intros name Hname. apply Hfresh.
      now apply elem_of_difference in Hname as [Hname _].
Qed.

(** Every pair the loop adds has as base the location of a table of the
    list whose lookup returned the name on the mirror side. *)
Lemma get_mirrors_loop_provenance (db_files : list string) :
  forall (remaining : gset string) (mirrors out : list mirror_pair),
    result (get_mirrors_loop resolve db_dir db_files remaining mirrors) = Ret out ->
    forall item, item ∈ out ->
      item ∈ mirrors \/
      exists filename mirror_name,
        item = (table_uri db_dir filename, table_uri db_dir mirror_name) /\
        filename ∈ db_files /\
        result (resolve (table_key filename)) = Ret (Some mirror_name).
Proof.
  induction db_files as [| filename db_files' IH];
    intros remaining mirrors out Hres item Hitem; simpl in Hres.
  - injection Hres as <-. now left.
  - assert (forall rem' mirrors',
      result (get_mirrors_loop resolve db_dir db_files' rem' mirrors') = Ret out ->
      (item ∈ mirrors' -> item ∈ mirrors \/
         exists f m, item = (table_uri db_dir f, table_uri db_dir m) /\
           f ∈ filename :: db_files' /\
           result (resolve (table_key f)) = Ret (Some m)) ->
      item ∈ mirrors \/
      exists f m, item = (table_uri db_dir f, table_uri db_dir m) /\
        f ∈ filename :: db_files' /\
        result (resolve (table_key f)) = Ret (Some m)) as Hstep.
    { intros rem' mirrors' Hres' Hold.
      destruct (IH _ _ _ Hres' item Hitem) as [Hin | (f & m & -> & Hf & Hr)].
      - now apply Hold.
      - right. exists f, m. repeat split; [now apply list_elem_of_further | exact Hr]. }
    case_bool_decide as Hin; [| apply (Hstep _ _ Hres); now left].
    rewrite result_bind in Hres.
    destruct (result (resolve (table_key filename))) as [[mirror_name |] | e] eqn:Hr;
      [| | discriminate].
    + destruct (str_truthy mirror_name
                && bool_decide (mirror_name ∈ remaining ∖ {[filename]})).
      * apply (Hstep _ _ Hres). intros Hold.
        apply elem_of_app in Hold as [Hold | Hold]; [now left |].
        apply list_elem_of_singleton in Hold as ->.
        right. exists filename, mirror_name.
        repeat split; [apply list_elem_of_here | exact Hr].
      * apply (Hstep _ _ Hres); now left.
    + apply (Hstep _ _ Hres); now left.
Qed.

End PairCollectorFacts.

(** C3.  Whatever the table list and the mirror lookup, the locations on
    the two sides of the pairs [get_mirrors] returns are pairwise distinct:
    no table occurs in two pairs, in either position, and no pair has the
    same table on both sides. *)
Theorem get_mirrors_exclusive
    (resolve : string -> M (option string)) (db_dir : string)
    (db_files : list string) (mirrors : list mirror_pair) :
  result (get_mirrors_with resolve db_dir db_files) = Ret mirrors ->
  NoDup (sides mirrors).
Proof.
  rewrite get_mirrors_with_result. intros Hres.
  apply (get_mirrors_loop_exclusive _ _ _ _ _ _ Hres).
  - apply NoDup_nil_2.
  - intros name _ Hx. simpl in Hx. now apply elem_of_nil in Hx.
Qed.

Lemma get_mirrors_exclusive_witness :
  NoDup [table_uri "db" "orders"; table_uri "db" "orders_mirror"].
Proof.
  apply (get_mirrors_exclusive
           (resolve_in (healthy_world orders_keys orders_catalog compare_match))
           "db" ["orders"; "orders_mirror"]
           [(table_uri "db" "orders", table_uri "db" "orders_mirror")]).
  vm_compute. reflexivity.
Defined.

(** One step of the collector on an entry whose mirror is not among the
    remaining tables: no pair is added, and the loop goes on with the rest
    of the list. *)
Lemma get_mirrors_loop_skip
    (resolve : string -> M (option string)) (db_dir filename : string)
    (rest : list string) (remaining : gset string)
    (mirrors : list mirror_pair) (t : list event) (mirror_name : string) :
  filename ∈ remaining ->
  resolve (table_key filename) = (t, Ret (Some mirror_name)) ->
  mirror_name ∉ remaining ∖ {[filename]} ->
  get_mirrors_loop resolve db_dir (filename :: rest) remaining mirrors
  = (t ++ trace (get_mirrors_loop resolve db_dir rest
                   (remaining ∖ {[filename]}) mirrors),
     result (get_mirrors_loop resolve db_dir rest
               (remaining ∖ {[filename]}) mirrors)).
Proof.
  intros Hin Hres Hout. simpl.
  rewrite (bool_decide_eq_true_2 _ Hin), Hres. simpl.
  rewrite (bool_decide_eq_false_2 _ Hout), andb_false_r. reflexivity.
Qed.

(** ** What each phase does to the outside *)

Lemma only_bind {A B} (f : event -> bool) (m : M A) (k : A -> M B) :
  only f (trace m) -> (forall a, only f (trace (k a))) ->
  only f (trace (bind m k)).
Proof.
  intros Hm Hk. rewrite trace_bind. destruct (result m) as [a | e];
    [apply Forall_app; split; [exact Hm | apply Hk] | exact Hm].
Qed.

Lemma only_emit (f : event -> bool) (ev : event) :
  f ev = true -> only f (trace (emit ev)).
Proof. intros H. apply Forall_cons_2; [exact H | apply Forall_nil_2]. Qed.

Lemma only_lift {A} (f : event -> bool) (o : outcome A) : only f (trace (lift o)).
Proof. apply Forall_nil_2. Qed.

Lemma only_ret {A} (f : event -> bool) (a : A) : only f (trace (ret a)).
Proof. apply Forall_nil_2. Qed.

Lemma only_raise {A} (f : event -> bool) (e : exn) :
  only f (trace (@raise A e)).
Proof. apply Forall_nil_2. Qed.

Create HintDb events.
#[local] Hint Resolve only_emit only_lift only_ret only_raise : events.

Ltac step_events :=
  repeat (apply only_bind; [| intros ?]); auto with events.

Lemma scan_loop_events (keys : list string) (iter_end : outcome unit) :
  forall files, only is_scan_event (trace (scan_loop keys iter_end files)).
Proof.
  induction keys as [| k keys IH]; intros files; cbn [scan_loop].
  - step_events.
  - apply only_bind; [auto with events | intros _].
    destruct (negb _); [auto with events |].
    destruct (PyStr.startswith _ k); apply IH.
Qed.

Lemma get_wiredtiger_db_files_events (w : world) :
  only is_scan_event (trace (get_wiredtiger_db_files w)).
Proof.
  unfold get_wiredtiger_db_files.
  repeat (apply only_bind; [auto using scan_loop_events with events | intros ?]).
  auto with events.
Qed.

Lemma get_mirrors_loop_events (w : world) (db_dir : string)
    (db_files : list string) :
  forall remaining mirrors,
    only is_scan_event
      (trace (get_mirrors_loop (resolve_in w) db_dir db_files remaining mirrors)).
Proof.
  induction db_files as [| filename db_files IH]; intros remaining mirrors;
    cbn [get_mirrors_loop]; [auto with events |].
  destruct (bool_decide _); [| apply IH].
  apply only_bind; [unfold resolve_in; step_events |].
  intros [mirror_name |]; [| apply IH].
  destruct (_ && _); apply IH.
Qed.

Lemma get_mirrors_events (w : world) (db_dir : string) (db_files : list string) :
  only is_scan_event (trace (get_mirrors w db_dir db_files)).
Proof.
  unfold get_mirrors, get_mirrors_with.
  repeat (apply only_bind;
          [auto using get_mirrors_loop_events with events | intros ?]).
  auto with events.
Qed.

Lemma validate_loop_events (w : world) (mirrors : list mirror_pair) :
  forall failure_count,
    only is_validation_event (trace (validate_loop w mirrors failure_count)).
Proof.
  induction mirrors as [| item mirrors IH]; intros failure_count;
    cbn [validate_loop]; [auto with events |].
  do 2 (apply only_bind; [auto with events | intros _]).
  destruct (cmp_end (w_compare w item)) as [v | [cls | code | cls]];
    auto with events.
  destruct (code_nonzero code); [| apply IH].
  apply only_bind; [auto with events | intros _; apply IH].
Qed.

Lemma validate_and_report_events (w : world) (db_dir : string)
    (mirrors : list mirror_pair) :
  only is_validation_event (trace (validate_and_report w db_dir mirrors)).
Proof.
  unfold validate_and_report.
  apply only_bind; [apply validate_loop_events | intros failure_count].
  apply only_bind; [destruct (_ =? _)%nat; auto with events | intros _].
  apply only_raise.
Qed.

Lemma printed_app (t1 t2 : list event) :
  printed (t1 ++ t2) = printed t1 ++ printed t2.
Proof. apply omap_app. Qed.

Lemma printed_scan (t : list event) : only is_scan_event t -> printed t = [].
Proof.
  induction 1 as [| ev t Hev _ IH]; [reflexivity |].
  unfold printed in *. cbn [omap list_omap]. rewrite IH.
  destruct ev; try discriminate; reflexivity.
Qed.

(** ** The driver *)

Lemma main_scanned (w : world) (db_dir : string) (t1 t2 : list event)
    (db_files : list string) (mirrors : list mirror_pair) :
  w_open w db_dir = Ret tt ->
  get_wiredtiger_db_files w = (t1, Ret db_files) ->
  get_mirrors w db_dir db_files = (t2, Ret mirrors) ->
  main w [db_dir]
  = (ConnOpen db_dir "readonly" :: t1 ++ t2 ++ ConnClose
       :: trace (validate_and_report w db_dir mirrors),
     result (validate_and_report w db_dir mirrors)).
Proof.
  intros Hopen Hscan Hpairs. unfold main. cbn [length Nat.eqb negb].
  rewrite Hopen, Hscan. cbn [bind ret lift emit fst snd app].
  rewrite Hpairs. reflexivity.
Qed.

Lemma validate_and_report_run (w : world) (db_dir : string)
    (mirrors : list mirror_pair) (t : list event) (failure_count : nat) :
  validate_loop w mirrors 0 = (t, Ret failure_count) ->
  validate_and_report w db_dir mirrors
  = (t ++ [Print (if (failure_count =? 0)%nat
                  then success_line (length mirrors) db_dir
                  else failure_line failure_count (length mirrors) db_dir)],
     Raise (SystemExit (CodeInt (if (0 <? failure_count)%nat then 1 else 0)))).
Proof.
  intros Hloop. unfold validate_and_report. rewrite Hloop.
  destruct failure_count; reflexivity.
Qed.

Lemma get_mirrors_single (w : world) (db_dir base mirror_name : string) :
  get_mirror_file (w_lookup w) (table_key base) = Ret (Some mirror_name) ->
  get_mirrors w db_dir [base]
  = ([SessionOpen; CursorOpen "metadata:"; CursorGet (table_key base);
      CursorClose; SessionClose], Ret []).
Proof.
  intros Hres. unfold get_mirrors, get_mirrors_with.
  assert (base ∈ (list_to_set [base] : gset string)) as Hin
    by apply elem_of_list_to_set, list_elem_of_here.
  assert (mirror_name ∉ (list_to_set [base] : gset string) ∖ {[base]}) as Hout.
  { intros H. apply elem_of_difference in H as [H1 H2].
    apply elem_of_list_to_set, list_elem_of_singleton in H1.
    rewrite elem_of_singleton in H2. contradiction. }
  rewrite (get_mirrors_loop_skip (resolve_in w) db_dir base []
             (list_to_set [base]) [] [CursorGet (table_key base)] mirror_name
             Hin); [reflexivity | | exact Hout].
  unfold resolve_in. rewrite Hres. reflexivity.
Qed.

(** C4.  An entry whose resolved mirror is not in the remaining set (never
    in the catalog, or consumed by an earlier pair) adds no pair, and the
    collector goes on with the entries that follow.  In particular, when
    the catalog holds a single table that names a mirror, no pair is
    emitted, the report counts 0 pairs and the process exits with
    status 0. *)
Theorem get_mirrors_orphan_skipped :
  (forall (resolve : string -> M (option string)) (db_dir filename : string)
          (rest : list string) (remaining : gset string)
          (mirrors : list mirror_pair) (t : list event) (mirror_name : string),
     filename ∈ remaining ->
     resolve (table_key filename) = (t, Ret (Some mirror_name)) ->
     mirror_name ∉ remaining ∖ {[filename]} ->
     get_mirrors_loop resolve db_dir (filename :: rest) remaining mirrors
     = (t ++ trace (get_mirrors_loop resolve db_dir rest
                      (remaining ∖ {[filename]}) mirrors),
        result (get_mirrors_loop resolve db_dir rest
                  (remaining ∖ {[filename]}) mirrors)))
  /\
  (forall (w : world) (db_dir base mirror_name : string) (t : list event),
     w_open w db_dir = Ret tt ->
     get_wiredtiger_db_files w = (t, Ret [base]) ->
     get_mirror_file (w_lookup w) (table_key base) = Ret (Some mirror_name) ->
     result (get_mirrors w db_dir [base]) = Ret [] /\
     printed (trace (main w [db_dir])) = [success_line 0 db_dir] /\
     result (main w [db_dir]) = Raise (SystemExit (CodeInt 0)) /\
     exit_status (result (main w [db_dir])) = 0%Z).
Proof.
  split.
  - intros. eapply get_mirrors_loop_skip; eassumption.
  - intros w db_dir base mirror_name t Hopen Hscan Hres.
    pose proof (get_mirrors_single w db_dir base mirror_name Hres) as Hpairs.
    rewrite (main_scanned w db_dir _ _ _ _ Hopen Hscan Hpairs).
    rewrite (validate_and_report_run w db_dir [] [] 0 eq_refl).
    rewrite Hpairs. unfold trace, result. cbn [fst snd].
    repeat split.
    assert (printed t = []) as Ht.
    { apply printed_scan. pose proof (get_wiredtiger_db_files_events w) as H.
      now rewrite Hscan in H. }
    change (ConnOpen db_dir "readonly" :: t ++ ?r)
      with ([ConnOpen db_dir "readonly"] ++ t ++ r).
    rewrite !printed_app, Ht. reflexivity.
Qed.

Lemma get_mirrors_orphan_skipped_witness :
  get_mirrors_loop (resolve_in (healthy_world dropped_keys dropped_catalog compare_match))
    "db" ["orders"; "customers"] {[ "orders"; "customers" ]} []
  = ([CursorGet "table:orders"; CursorGet "table:customers"], Ret [])
  /\ exit_status
       (result (main (healthy_world dropped_keys dropped_catalog compare_match) ["db"]))
     = 0%Z.
Proof.
  split.
  - rewrite (proj1 get_mirrors_orphan_skipped
               (resolve_in (healthy_world dropped_keys dropped_catalog compare_match))
               "db" "orders" ["customers"] {[ "orders"; "customers" ]} []
               [CursorGet "table:orders"] "orders_mirror").
    + vm_compute. reflexivity.
    + vm_compute. reflexivity.
    + vm_compute. reflexivity.
    + vm_compute. intros H. discriminate.
  - apply (proj2 get_mirrors_orphan_skipped
             (healthy_world dropped_keys dropped_catalog compare_match)
             "db" "orders" "orders_mirror"
             (trace (get_wiredtiger_db_files
                       (healthy_world dropped_keys dropped_catalog compare_match)))).
    + reflexivity.
    + vm_compute. reflexivity.
    + vm_compute. reflexivity.
Defined.

(** A table for which the resolver returns a mirror name has the mirror
    configuration in its own record. *)
Lemma get_mirror_file_configured (catalog : gmap string string)
    (T mirror_name : string) :
  get_mirror_file (cursor_of_catalog catalog) (table_key T) = Ret (Some mirror_name) ->
  has_mirror_config catalog T = true.
Proof.
  unfold get_mirror_file, lookup_metadata, cursor_of_catalog,
    has_mirror_config, own_app_metadata.
  destruct (catalog !! table_key T) as [config |]; [| discriminate].
  destruct (findall_app_metadata config) as [| quoted others]; [discriminate |].
  destruct (parse_app_metadata quoted) as [d | e]; [| discriminate].
  destruct (bool_decide (d !! "workgen_dynamic_table" = Some "true"));
    [| discriminate].
  destruct (d !! "workgen_table_mirror") as [mirror |] eqn:Hmirror.
  - intros _. reflexivity.
  - rewrite bool_decide_eq_false_2 by (intros H; now apply H). discriminate.
Qed.

(** C2, as worded, fails: a table without any application metadata of its
    own is placed on the mirror side of the pair of the table that names
    it. *)
Lemma unconfigured_table_on_mirror_side :
  has_mirror_config one_sided_catalog "b" = false /\
  exists mirrors,
    result (get_mirrors (healthy_world [] one_sided_catalog compare_match)
              "db" ["a"; "b"]) = Ret mirrors /\
    table_uri "db" "b" ∈ map snd mirrors.
Proof.
  split; [vm_compute; reflexivity |].
  exists [(table_uri "db" "a", table_uri "db" "b")].
  split; [vm_compute; reflexivity |].
  apply list_elem_of_here.
Qed.

(** C2, amended.  A table whose own metadata lacks
    [workgen_dynamic_table=true] or lacks a [workgen_table_mirror] entry is
    never the base side of an emitted pair. *)
Theorem unconfigured_table_never_base
    (catalog : gmap string string) (w : world) (db_dir : string)
    (db_files : list string) (T : string) (mirrors : list mirror_pair) :
  w_lookup w = cursor_of_catalog catalog ->
  has_mirror_config catalog T = false ->
  result (get_mirrors w db_dir db_files) = Ret mirrors ->
  table_uri db_dir T ∉ map fst mirrors.
Proof.
  intros Hcursor Hlacks Hres Hin.
  apply list_elem_of_fmap in Hin as (item & Hfst & Hitem).
  unfold get_mirrors in Hres. rewrite get_mirrors_with_result in Hres.
  destruct (get_mirrors_loop_provenance _ _ _ _ _ _ Hres item Hitem)
    as [Hnil | (filename & mirror_name & -> & _ & Hresolve)].
  - now apply elem_of_nil in Hnil.
  - simpl in Hfst. apply table_uri_inj in Hfst as <-.
    unfold resolve_in in Hresolve. rewrite result_bind in Hresolve.
    simpl in Hresolve. unfold result, lift in Hresolve. simpl in Hresolve.
    rewrite Hcursor in Hresolve.
    apply get_mirror_file_configured in Hresolve. congruence.
Qed.

Lemma unconfigured_table_never_base_witness :
  table_uri "db" "b"
  ∉ map fst [(table_uri "db" "a", table_uri "db" "b")].
Proof.
  apply (unconfigured_table_never_base one_sided_catalog
           (healthy_world [] one_sided_catalog compare_match)
           "db" ["a"; "b"] "b").
  - reflexivity.
  - vm_compute. reflexivity.
  - vm_compute. reflexivity.
Defined.

(** ** CatalogScanner *)

Lemma scan_loop_steps (keys : list string) (iter_end : outcome unit) :
  forall files, only is_cursor_next (trace (scan_loop keys iter_end files)).
Proof.
  induction keys as [| k keys IH]; intros files; cbn [scan_loop].
  - step_events.
  - apply only_bind; [auto with events | intros _].
    destruct (negb _); [auto with events |].
    destruct (PyStr.startswith _ k); apply IH.
Qed.




(** With calm handles the scan is the one defined first. *)
Lemma calm_get_wiredtiger_db_files (w : world) :
  Engine.get_wiredtiger_db_files calm w = get_wiredtiger_db_files w.
Proof.
  unfold Engine.get_wiredtiger_db_files, get_wiredtiger_db_files.
  cbn [calm h_open_session h_open_cursor h_set_key h_cursor_close
       h_session_close].
  destruct (w_search_near w) as [[] | e]; [| reflexivity].
  destruct (scan_loop (w_keys w) (w_iter_end w) []) as [t [files | e]];
    reflexivity.
Qed.





(** ** ValidationRunner and ReportAggregator *)

(** C7.  With no positional argument or more than one, [main] prints the
    two usage lines on standard output and exits with status 1; nothing
    else happens, in particular no connection is opened and no scan is
    made. *)
Theorem main_usage_error (w : world) (sysargs : list string) :
  length sysargs <> 1 ->
  main w sysargs
  = ([Print "Usage: python3 validate_mirror_tables database_dir";
      Print "  database_dir is a POSIX pathname to a WiredTiger home directory"],
     Raise (SystemExit (CodeInt 1))) /\
  exit_status (result (main w sysargs)) = 1%Z.
Proof.
  intros Hlen. unfold main.
  destruct (Nat.eqb_spec (length sysargs) 1) as [Heq | _]; [contradiction |].
  split; reflexivity.
Qed.

Lemma main_usage_error_witness :
  main (healthy_world orders_keys orders_catalog compare_match) ["db"; "extra"]
  = ([Print "Usage: python3 validate_mirror_tables database_dir";
      Print "  database_dir is a POSIX pathname to a WiredTiger home directory"],
     Raise (SystemExit (CodeInt 1))) /\
  exit_status
    (result (main (healthy_world orders_keys orders_catalog compare_match)
               ["db"; "extra"])) = 1%Z.
Proof.
  apply (main_usage_error _ ["db"; "extra"]). simpl. lia.
Defined.

(** C5.  A run that completes validation of [N] pairs with [F] failures
    ends with the summary line and the exit status of the design document:
    the success line and status 0 when [F] is zero, the failure line and
    status 1 otherwise. *)
Theorem main_report (w : world) (db_dir : string) (t1 t2 t3 : list event)
    (db_files : list string) (mirrors : list mirror_pair) (F : nat) :
  w_open w db_dir = Ret tt ->
  get_wiredtiger_db_files w = (t1, Ret db_files) ->
  get_mirrors w db_dir db_files = (t2, Ret mirrors) ->
  validate_loop w mirrors 0 = (t3, Ret F) ->
  let N := length mirrors in
  (F = 0 ->
   main w [db_dir]
   = (ConnOpen db_dir "readonly" :: t1 ++ t2 ++ ConnClose :: t3
        ++ [Print ("Successfully validated " +:+ PyStr.str_of_nat N
                   +:+ " table mirrors in database directory '" +:+ db_dir
                   +:+ "'.")],
      Raise (SystemExit (CodeInt 0))) /\
   exit_status (result (main w [db_dir])) = 0%Z)
  /\
  (0 < F ->
   main w [db_dir]
   = (ConnOpen db_dir "readonly" :: t1 ++ t2 ++ ConnClose :: t3
        ++ [Print ("Mirrored table validation failed for " +:+ PyStr.str_of_nat F
                   +:+ " of " +:+ PyStr.str_of_nat N
                   +:+ " table mirrors in database directory '" +:+ db_dir
                   +:+ "'.")],
      Raise (SystemExit (CodeInt 1))) /\
   exit_status (result (main w [db_dir])) = 1%Z).
Proof.
  intros Hopen Hscan Hpairs Hloop N.
  rewrite (main_scanned w db_dir _ _ _ _ Hopen Hscan Hpairs).
  rewrite (validate_and_report_run w db_dir mirrors t3 F Hloop).
  unfold trace, result. cbn [fst snd].
  split.
  - intros ->. split; reflexivity.
  - intros HF. destruct F as [| F']; [lia |]. split; reflexivity.
Qed.

Lemma main_report_witness :
  main (healthy_world orders_keys orders_catalog compare_mismatch) ["db"]
  = (ConnOpen "db" "readonly"
       :: trace (get_wiredtiger_db_files
                   (healthy_world orders_keys orders_catalog compare_mismatch))
       ++ trace (get_mirrors
                   (healthy_world orders_keys orders_catalog compare_mismatch)
                   "db" ["orders"; "orders_mirror"])
       ++ ConnClose
       :: [Compare (table_uri "db" "orders", table_uri "db" "orders_mirror");
           DevNull "Mismatched value at key 17";
           Print "Mirror mismatch ['db/table:orders', 'db/table:orders_mirror']: None"]
       ++ [Print "Mirrored table validation failed for 1 of 1 table mirrors in database directory 'db'."],
     Raise (SystemExit (CodeInt 1))) /\
  exit_status
    (result (main (healthy_world orders_keys orders_catalog compare_mismatch) ["db"]))
  = 1%Z.
Proof.
  apply (proj2 (main_report
                  (healthy_world orders_keys orders_catalog compare_mismatch) "db"
                  _ _ _ ["orders"; "orders_mirror"]
                  [(table_uri "db" "orders", table_uri "db" "orders_mirror")] 1
                  eq_refl eq_refl eq_refl eq_refl)).
  lia.
Defined.

Section Counting.

Lemma count_events_app (f : event -> bool) (t1 t2 : list event) :
  count_events f (t1 ++ t2) = count_events f t1 + count_events f t2.
Proof. unfold count_events. now rewrite filter_app, length_app. Qed.

Lemma count_events_none (f g : event -> bool) (t : list event) :
  (forall ev, f ev = true -> g ev = false) ->
  only f t -> count_events g t = 0.
Proof.
  intros Hfg. induction 1 as [| ev t Hev _ IH]; [reflexivity |].
  unfold count_events in *. rewrite filter_cons.
  destruct (decide (g ev = true)) as [Hg | _]; [| exact IH].
  rewrite (Hfg ev Hev) in Hg. discriminate.
Qed.

End Counting.

(** C6, as worded, fails: in a run with one pair the comparison is made
    after the connection has been closed. *)
Lemma comparison_follows_close :
  ~ closes_after_all_work
      (trace (main (healthy_world orders_keys orders_catalog compare_match) ["db"])).
Proof.
  intros (_ & _ & Hwork). vm_compute in Hwork. discriminate.
Qed.

(** C6, amended.  In a run with one positional argument in which the
    connection opens and the scan (catalog enumeration and pair collection)
    completes, the connection is opened once and closed once; every call of
    the scan lies between the two, and every comparison and every printed
    line comes after the close.  This holds whatever the comparisons
    report. *)
Theorem main_connection_discipline (w : world) (db_dir : string)
    (t1 t2 : list event) (db_files : list string) (mirrors : list mirror_pair) :
  w_open w db_dir = Ret tt ->
  get_wiredtiger_db_files w = (t1, Ret db_files) ->
  get_mirrors w db_dir db_files = (t2, Ret mirrors) ->
  exists validation : list event,
    trace (main w [db_dir])
    = ConnOpen db_dir "readonly" :: (t1 ++ t2) ++ ConnClose :: validation /\
    only is_scan_event (t1 ++ t2) /\
    only is_validation_event validation /\
    validation = trace (validate_and_report w db_dir mirrors) /\
    count_events is_conn_open (trace (main w [db_dir])) = 1 /\
    count_events is_conn_close (trace (main w [db_dir])) = 1.
Proof.
  intros Hopen Hscan Hpairs.
  exists (trace (validate_and_report w db_dir mirrors)).
  assert (only is_scan_event (t1 ++ t2)) as Hscans.
  { apply Forall_app. split.
    - pose proof (get_wiredtiger_db_files_events w) as H. now rewrite Hscan in H.
    - pose proof (get_mirrors_events w db_dir db_files) as H.
      now rewrite Hpairs in H. }
  pose proof (validate_and_report_events w db_dir mirrors) as Hvalid.
  assert (trace (main w [db_dir])
          = [ConnOpen db_dir "readonly"] ++ (t1 ++ t2) ++ [ConnClose]
              ++ trace (validate_and_report w db_dir mirrors)) as Htrace.
  { rewrite (main_scanned w db_dir _ _ _ _ Hopen Hscan Hpairs).
    unfold trace at 1. cbn [fst app]. now rewrite <- app_assoc. }
  assert (forall f : event -> bool,
            (forall ev, is_scan_event ev = true -> f ev = false) ->
            (forall ev, is_validation_event ev = true -> f ev = false) ->
            count_events f (trace (main w [db_dir]))
            = count_events f [ConnOpen db_dir "readonly"]
              + count_events f [ConnClose]) as Hcount.
  { intros f Hs Hv. rewrite Htrace, !count_events_app.
    pose proof (proj1 (Forall_app _ _ _) Hscans) as [Hscans1 Hscans2].
    rewrite (count_events_none is_scan_event f t1 Hs Hscans1).
    rewrite (count_events_none is_scan_event f t2 Hs Hscans2).
    rewrite (count_events_none is_validation_event f _ Hv Hvalid). lia. }
  split; [exact Htrace |].
  split; [exact Hscans |].
  split; [exact Hvalid |].
  split; [reflexivity |].
  split; rewrite Hcount; try reflexivity;
    intros []; (discriminate || reflexivity).
Qed.

Lemma main_connection_discipline_witness :
  exists validation : list event,
    trace (main (healthy_world orders_keys orders_catalog compare_mismatch) ["db"])
    = ConnOpen "db" "readonly"
        :: (trace (get_wiredtiger_db_files
                     (healthy_world orders_keys orders_catalog compare_mismatch))
            ++ trace (get_mirrors
                        (healthy_world orders_keys orders_catalog compare_mismatch)
                        "db" ["orders"; "orders_mirror"]))
        ++ ConnClose :: validation /\
    only is_scan_event
      (trace (get_wiredtiger_db_files
                (healthy_world orders_keys orders_catalog compare_mismatch))
       ++ trace (get_mirrors
                   (healthy_world orders_keys orders_catalog compare_mismatch)
                   "db" ["orders"; "orders_mirror"])) /\
    only is_validation_event validation /\
    validation
    = trace (validate_and_report
               (healthy_world orders_keys orders_catalog compare_mismatch) "db"
               [(table_uri "db" "orders", table_uri "db" "orders_mirror")]) /\
    count_events is_conn_open
      (trace (main (healthy_world orders_keys orders_catalog compare_mismatch) ["db"]))
    = 1 /\
    count_events is_conn_close
      (trace (main (healthy_world orders_keys orders_catalog compare_mismatch) ["db"]))
    = 1.
Proof.
  apply (main_connection_discipline
           (healthy_world orders_keys orders_catalog compare_mismatch) "db"
           _ _ ["orders"; "orders_mirror"]
           [(table_uri "db" "orders", table_uri "db" "orders_mirror")]
           eq_refl eq_refl eq_refl).
Defined.

(** What the validation loop prints, and how it ends, does not depend on
    the text the comparison utility writes. *)
Lemma validate_loop_ignores_text (w w' : world) (mirrors : list mirror_pair) :
  (forall item, cmp_end (w_compare w item) = cmp_end (w_compare w' item)) ->
  forall failure_count,
    printed (trace (validate_loop w mirrors failure_count))
    = printed (trace (validate_loop w' mirrors failure_count)) /\
    result (validate_loop w mirrors failure_count)
    = result (validate_loop w' mirrors failure_count).
Proof.
  intros Hsame. induction mirrors as [| item mirrors IH]; intros failure_count;
    cbn [validate_loop]; [split; reflexivity |].
  rewrite <- Hsame.
  destruct (cmp_end (w_compare w item)) as [v | [cls | code | cls]];
    try (split; reflexivity).
  - destruct (IH failure_count) as [Hp Hr].
    unfold trace, result, printed in *. cbn. split; assumption.
  - destruct (code_nonzero code).
    + destruct (IH (failure_count + 1)) as [Hp Hr].
      unfold trace, result, printed in *. cbn. split; [now f_equal | assumption].
    + destruct (IH failure_count) as [Hp Hr].
      unfold trace, result, printed in *. cbn. split; assumption.
Qed.

(** C9.  For a pair whose comparison ends with a nonzero termination code,
    the loop prints one line for the pair, and the text after the colon is
    [None]: the call was left before [stdout] was assigned, and what the
    utility wrote went to the null device.  The design document asks for the
    diagnostic text of the utility in that place. *)
Theorem validate_loop_mismatch_line (w : world) (item : mirror_pair)
    (mirrors : list mirror_pair) (failure_count : nat) (code : exit_code) :
  cmp_end (w_compare w item) = Raise (SystemExit code) ->
  code_nonzero code = true ->
  validate_loop w (item :: mirrors) failure_count
  = ([Compare item; DevNull (cmp_text (w_compare w item));
      Print ("Mirror mismatch " +:+ str_of_item item +:+ ": None")]
     ++ trace (validate_loop w mirrors (failure_count + 1)),
     result (validate_loop w mirrors (failure_count + 1))).
Proof.
  intros Hend Hcode. cbn [validate_loop]. rewrite Hend, Hcode. reflexivity.
Qed.

Lemma validate_loop_mismatch_line_witness :
  validate_loop (healthy_world orders_keys orders_catalog compare_mismatch)
    [(table_uri "db" "orders", table_uri "db" "orders_mirror")] 0
  = ([Compare (table_uri "db" "orders", table_uri "db" "orders_mirror");
      DevNull "Mismatched value at key 17";
      Print "Mirror mismatch ['db/table:orders', 'db/table:orders_mirror']: None"],
     Ret 1).
Proof.
  apply (validate_loop_mismatch_line
           (healthy_world orders_keys orders_catalog compare_mismatch)
           (table_uri "db" "orders", table_uri "db" "orders_mirror") [] 0
           (CodeInt 1)); reflexivity.
Defined.


(** * Further properties of the code *)

(** ** CatalogScanner: what the scan returns and how far it reads *)

Lemma scan_loop_result (keys : list string) (iter_end : outcome unit) :
  iter_end = Ret tt \/ Exists (fun k => PyStr.startswith prefix k = false) keys ->
  forall files,
    result (scan_loop keys iter_end files)
    = Ret (files ++ map file_name (List.filter user_file (leading_file_keys keys))).
Proof.
  intros Hend. induction keys as [| k keys IH]; intros files;
    cbn [scan_loop leading_file_keys].
  - destruct Hend as [-> | Hex]; [| inversion Hex].
    simpl. now rewrite app_nil_r.
  - rewrite result_bind. cbn [result emit snd].
    destruct (PyStr.startswith prefix k) eqn:Hk; cbn [negb].
    + assert (iter_end = Ret tt \/
              Exists (fun k => PyStr.startswith prefix k = false) keys) as Hend'.
      { destruct Hend as [H | H]; [now left | right].
        inversion H as [? ? Hhd | ? ? Htl]; subst; [congruence | exact Htl]. }
      cbn [List.filter]. unfold user_file at 1.
      destruct (PyStr.startswith (prefix +:+ "WiredTiger") k); cbn [negb].
      * apply (IH Hend').
      * rewrite (IH Hend'). cbn [map]. now rewrite <- app_assoc.
    + simpl. now rewrite app_nil_r.
Qed.

Lemma scan_loop_length (keys : list string) (iter_end : outcome unit) :
  forall files,
    length (trace (scan_loop keys iter_end files))
    = S (length (leading_file_keys keys)).
Proof.
  induction keys as [| k keys IH]; intros files;
    cbn [scan_loop leading_file_keys].
  - destruct iter_end; reflexivity.
  - rewrite trace_bind. cbn [result emit snd trace fst].
    destruct (PyStr.startswith prefix k); cbn [negb]; [| reflexivity].
    destruct (PyStr.startswith (prefix +:+ "WiredTiger") k);
      cbn [app length]; now rewrite IH.
Qed.

(** X1.  When the positioning succeeds and the iteration either ends
    normally or meets a key outside the [file:] namespace, the scan returns
    the names of the leading [file:] keys that are not the engine's own, in
    key order; keys after the first one outside the namespace play no
    part. *)
Theorem get_wiredtiger_db_files_result (w : world) :
  w_search_near w = Ret tt ->
  w_iter_end w = Ret tt
  \/ Exists (fun k => PyStr.startswith prefix k = false) (w_keys w) ->
  result (get_wiredtiger_db_files w)
  = Ret (map file_name (List.filter user_file (leading_file_keys (w_keys w)))).
Proof.
  intros Hnear Hend. unfold get_wiredtiger_db_files. rewrite Hnear.
  rewrite !result_bind. cbn [result emit lift snd].
  rewrite (scan_loop_result _ _ Hend []). reflexivity.
Qed.

Lemma get_wiredtiger_db_files_result_witness :
  result (get_wiredtiger_db_files
            (healthy_world orders_keys orders_catalog compare_match))
  = Ret ["orders"; "orders_mirror"].
Proof.
  apply (get_wiredtiger_db_files_result
           (healthy_world orders_keys orders_catalog compare_match)).
  - reflexivity.
  - left. reflexivity.
Defined.

Lemma count_events_cons (f : event -> bool) (ev : event) (t : list event) :
  count_events f (ev :: t) = (if f ev then 1 else 0) + count_events f t.
Proof.
  unfold count_events. rewrite filter_cons.
  destruct (f ev); destruct (decide _); simpl; congruence.
Qed.

(** X2.  The scan asks the cursor for exactly one record more than there
    are leading [file:] keys: it stops at the first key outside the
    namespace (or at the end) and never walks the rest of the catalog. *)
Theorem get_wiredtiger_db_files_steps (w : world) :
  w_search_near w = Ret tt ->
  count_events is_cursor_next (trace (get_wiredtiger_db_files w))
  = S (length (leading_file_keys (w_keys w))).
Proof.
  intros Hnear. unfold get_wiredtiger_db_files. rewrite Hnear.
  pose proof (scan_loop_steps (w_keys w) (w_iter_end w) []) as Honly.
  pose proof (scan_loop_length (w_keys w) (w_iter_end w) []) as Hlen.
  destruct (scan_loop (w_keys w) (w_iter_end w) []) as [steps r].
  assert (count_events is_cursor_next steps = length steps) as Hcount.
  { unfold trace in Honly. cbn [fst] in Honly. clear Hlen.
    induction Honly as [| ev t Hev _ IH]; [reflexivity |].
    unfold count_events in *. rewrite filter_cons.
    destruct (decide (is_cursor_next ev = true)); [| contradiction].
    simpl. now rewrite IH. }
  unfold trace in Hlen. cbn [fst] in Hlen. rewrite <- Hlen, <- Hcount.
  destruct r; cbn [bind emit lift ret trace fst snd app];
    rewrite !count_events_cons; cbn [is_cursor_next Nat.add];
    [| reflexivity].
  rewrite count_events_app, !count_events_cons. cbn [is_cursor_next].
  change (count_events is_cursor_next []) with 0. lia.
Qed.

Lemma get_wiredtiger_db_files_steps_witness :
  count_events is_cursor_next
    (trace (get_wiredtiger_db_files
              (healthy_world orders_keys orders_catalog compare_match)))
  = 5.
Proof.
  apply (get_wiredtiger_db_files_steps
           (healthy_world orders_keys orders_catalog compare_match)).
  reflexivity.
Defined.

Module FileNames.

Lemma length_append (s t : string) :
  String.length (s +:+ t) = String.length s + String.length t.
Proof. induction s as [| c s IH]; simpl; [reflexivity | now rewrite IH]. Qed.

Lemma substring_whole_prefix (s t : string) :
  String.substring 0 (String.length s) (s +:+ t) = s.
Proof.
  induction s as [| c s IH]; simpl.
  - destruct t; reflexivity.
  - now rewrite IH.
Qed.

Lemma substring_skip (p s : string) (m : nat) :
  String.substring (String.length p) m (p +:+ s) = String.substring 0 m s.
Proof. induction p as [| c p IH]; simpl; [reflexivity | exact IH]. Qed.

Lemma file_name_file_key (name : string) : file_name (file_key name) = name.
Proof.
  unfold file_name, file_key, PyStr.slice_from_to_end.
  rewrite substring_skip, !length_append.
  replace (String.length prefix + (String.length name + String.length ".wt")
           - 3 - String.length prefix)
    with (String.length name) by (simpl; lia).
  apply substring_whole_prefix.
Qed.

(** A file extension cannot complete a reserved prefix: none of the
    characters of the prefix is a dot. *)
Lemma prefix_before_extension (p name : string) :
  p <> EmptyString -> PyStr.contains "." p = false ->
  String.prefix p (name +:+ ".wt") = String.prefix p name.
Proof.
  revert p. induction name as [| b name IH]; intros p Hne Hdot.
  - destruct p as [| a p]; [contradiction |]. simpl in *.
    apply orb_false_elim in Hdot as [Ha _].
    destruct (ascii_dec a "."%char) as [-> | _]; [discriminate | reflexivity].
  - destruct p as [| a p]; [contradiction |]. simpl in *.
    apply orb_false_elim in Hdot as [_ Hdot].
    destruct (ascii_dec a b); [| reflexivity].
    destruct p as [| a' p]; [now destruct name |].
    apply IH; [discriminate | exact Hdot].
Qed.

Lemma prefix_cancel (p q s : string) :
  String.prefix (p +:+ q) (p +:+ s) = String.prefix q s.
Proof.
  induction p as [| c p IH]; simpl; [reflexivity |].
  destruct (ascii_dec c c) as [_ | Hc]; [exact IH | now contradiction Hc].
Qed.

Lemma prefix_self (p s : string) : String.prefix p (p +:+ s) = true.
Proof.
  induction p as [| c p IH]; simpl; [now destruct s |].
  destruct (ascii_dec c c) as [_ | Hc]; [exact IH | now contradiction Hc].
Qed.

Lemma file_key_in_namespace (name : string) :
  PyStr.startswith prefix (file_key name) = true.
Proof. apply prefix_self. Qed.

Lemma user_file_file_key (name : string) :
  user_file (file_key name) = negb (is_internal name).
Proof.
  unfold user_file, is_internal, file_key, PyStr.startswith.
  rewrite prefix_cancel. f_equal.
  apply prefix_before_extension; [discriminate | reflexivity].
Qed.

Lemma leading_file_keys_all (names : list string) :
  leading_file_keys (map file_key names) = map file_key names.
Proof.
  induction names as [| name names IH]; [reflexivity |].
  cbn [map leading_file_keys]. rewrite file_key_in_namespace. now rewrite IH.
Qed.

Lemma scanned_names (names : list string) :
  map file_name (List.filter user_file (map file_key names))
  = List.filter (fun name => negb (is_internal name)) names.
Proof.
  induction names as [| name names IH]; [reflexivity |].
  cbn [map List.filter]. rewrite user_file_file_key.
  destruct (negb (is_internal name)); cbn [map];
    [rewrite file_name_file_key |]; now rewrite IH.
Qed.

End FileNames.

(** X3.  Catalog keys and table names round-trip: when the cursor yields
    the keys [file:NAME.wt] of a list of tables and then ends, the scan
    returns those names in the same order, without the tables whose name
    starts with [WiredTiger]. *)
Theorem get_wiredtiger_db_files_round_trip (w : world) (names : list string) :
  w_search_near w = Ret tt ->
  w_iter_end w = Ret tt ->
  w_keys w = map file_key names ->
  result (get_wiredtiger_db_files w)
  = Ret (List.filter (fun name => negb (is_internal name)) names).
Proof.
  intros Hnear Hend Hkeys. unfold get_wiredtiger_db_files. rewrite Hnear.
  rewrite !result_bind. cbn [result emit lift snd].
  rewrite (scan_loop_result _ _ (or_introl Hend) []), Hkeys.
  rewrite FileNames.leading_file_keys_all, FileNames.scanned_names.
  reflexivity.
Qed.

Lemma get_wiredtiger_db_files_round_trip_witness :
  result (get_wiredtiger_db_files
            (healthy_world
               (map file_key ["WiredTiger"; "WiredTigerHS"; "customers"; "orders"])
               orders_catalog compare_match))
  = Ret ["customers"; "orders"].
Proof.
  apply (get_wiredtiger_db_files_round_trip
           (healthy_world
              (map file_key ["WiredTiger"; "WiredTigerHS"; "customers"; "orders"])
              orders_catalog compare_match)
           ["WiredTiger"; "WiredTigerHS"; "customers"; "orders"]);
    reflexivity.
Defined.


(** ** PairCollector: what the emitted pairs are made of *)

Section PairCollectorShape.

Variable resolve : string -> M (option string).
Variable db_dir : string.

Lemma emitted_from_mono (remaining remaining' : gset string)
    (news : list (string * string)) :
  (forall name, name ∈ remaining' -> name ∈ remaining) ->
  Forall (emitted_from resolve remaining') news ->
  Forall (emitted_from resolve remaining) news.
Proof.
  intros Hsub Hall. eapply Forall_impl; [exact Hall |].
  intros names (Hb & Hm & Hrest). split; [auto | split; auto].
Qed.

Lemma get_mirrors_loop_shape (db_files : list string) :
  forall (remaining : gset string) (mirrors out : list mirror_pair),
    result (get_mirrors_loop resolve db_dir db_files remaining mirrors) = Ret out ->
    exists news : list (string * string),
      out = mirrors ++ map (pair_of_names db_dir) news /\
      sublist (map fst news) db_files /\
      Forall (emitted_from resolve remaining) news.
Proof.
  induction db_files as [| filename db_files' IH];
    intros remaining mirrors out Hres; cbn [get_mirrors_loop] in Hres.
  - injection Hres as <-. exists []. rewrite app_nil_r.
    repeat split; [apply sublist_nil | apply Forall_nil_2].
  - assert (forall mirrors',
        result (get_mirrors_loop resolve db_dir db_files'
                  (remaining ∖ {[filename]}) mirrors') = Ret out ->
        exists news, out = mirrors' ++ map (pair_of_names db_dir) news /\
          sublist (map fst news) (filename :: db_files') /\
          Forall (emitted_from resolve remaining) news) as Hskip.
    { intros mirrors' Hres'.
      destruct (IH _ _ _ Hres') as (news & -> & Hsub & Hall).
      exists news. split; [reflexivity |]. split; [now apply sublist_cons |].
      apply (emitted_from_mono _ (remaining ∖ {[filename]})); [| exact Hall].
      intros name Hname. now apply elem_of_difference in Hname as [Hname _]. }
    case_bool_decide as Hin.
    + rewrite result_bind in Hres.
      destruct (result (resolve (table_key filename)))
        as [[mirror_name |] | e] eqn:Hresolve; [| now apply Hskip | discriminate].
      destruct (str_truthy mirror_name
                && bool_decide (mirror_name ∈ remaining ∖ {[filename]}))
        eqn:Hcond; [| now apply Hskip].
      apply andb_prop in Hcond as [Htruthy Hmem].
      apply bool_decide_eq_true in Hmem.
      apply elem_of_difference in Hmem as [Hmrem Hne].
      rewrite elem_of_singleton in Hne.
      destruct (IH _ _ _ Hres) as (news & -> & Hsub & Hall).
      exists ((filename, mirror_name) :: news).
      split; [now rewrite <- app_assoc |].
      split; [now apply sublist_skip |].
      apply Forall_cons_2.
      * unfold emitted_from. cbn [fst snd].
        repeat split; try assumption.
        intros ->. discriminate.
      * apply (emitted_from_mono _ (remaining ∖ {[filename]} ∖ {[mirror_name]}));
          [| exact Hall].
        intros name Hname. apply elem_of_difference in Hname as [Hname _].
        now apply elem_of_difference in Hname as [Hname _].
    + destruct (IH _ _ _ Hres) as (news & -> & Hsub & Hall).
      exists news. split; [reflexivity |]. split; [now apply sublist_cons |].
      exact Hall.
Qed.

End PairCollectorShape.

(** X4.  Every pair [get_mirrors] returns joins two different tables of
    the input list, the second of which is the non-empty name the lookup
    of the first returned: a mirror name that is not in the list is never
    paired. *)
Theorem get_mirrors_pairs_listed
    (resolve : string -> M (option string)) (db_dir : string)
    (db_files : list string) (mirrors : list mirror_pair) :
  result (get_mirrors_with resolve db_dir db_files) = Ret mirrors ->
  forall item, item ∈ mirrors ->
    exists filename mirror_name,
      item = (table_uri db_dir filename, table_uri db_dir mirror_name) /\
      filename ∈ db_files /\ mirror_name ∈ db_files /\
      filename <> mirror_name /\ mirror_name <> EmptyString /\
      result (resolve (table_key filename)) = Ret (Some mirror_name).
Proof.
  rewrite get_mirrors_with_result. intros Hres item Hitem.
  destruct (get_mirrors_loop_shape _ _ _ _ _ _ Hres) as (news & -> & _ & Hall).
  cbn [app] in Hitem. apply list_elem_of_fmap in Hitem as (names & -> & Hnames).
  rewrite Forall_forall in Hall.
  destruct (Hall names Hnames) as (Hb & Hm & Hne & Hnonempty & Hresolve).
  exists (fst names), (snd names).
  rewrite !elem_of_list_to_set in Hb, Hm.
  repeat split; try assumption. congruence.
Qed.

Lemma get_mirrors_pairs_listed_witness :
  exists filename mirror_name,
    (table_uri "db" "orders", table_uri "db" "orders_mirror")
    = (table_uri "db" filename, table_uri "db" mirror_name) /\
    filename ∈ ["orders"; "orders_mirror"] /\
    mirror_name ∈ ["orders"; "orders_mirror"] /\
    filename <> mirror_name /\ mirror_name <> EmptyString /\
    result (resolve_in (healthy_world orders_keys orders_catalog compare_match)
              (table_key filename)) = Ret (Some mirror_name).
Proof.
  apply (get_mirrors_pairs_listed
           (resolve_in (healthy_world orders_keys orders_catalog compare_match))
           "db" ["orders"; "orders_mirror"]
           [(table_uri "db" "orders", table_uri "db" "orders_mirror")]).
  - vm_compute. reflexivity.
  - apply list_elem_of_here.
Defined.

(** X5.  The pairs come out in the order in which their base tables stand
    in the input list: the base sides form a subsequence of the locations
    of the list. *)
Theorem get_mirrors_order
    (resolve : string -> M (option string)) (db_dir : string)
    (db_files : list string) (mirrors : list mirror_pair) :
  result (get_mirrors_with resolve db_dir db_files) = Ret mirrors ->
  sublist (map fst mirrors) (map (table_uri db_dir) db_files).
Proof.
  rewrite get_mirrors_with_result. intros Hres.
  destruct (get_mirrors_loop_shape _ _ _ _ _ _ Hres) as (news & -> & Hsub & _).
  cbn [app]. rewrite map_map. cbn [pair_of_names fst].
  rewrite <- (map_map fst (table_uri db_dir)).
  clear Hres. induction Hsub; cbn [map]; constructor; assumption.
Qed.

Lemma get_mirrors_order_witness :
  sublist (map fst [(table_uri "db" "orders", table_uri "db" "orders_mirror")])
          (map (table_uri "db") ["orders"; "orders_mirror"]).
Proof.
  apply (get_mirrors_order
           (resolve_in (healthy_world orders_keys orders_catalog compare_match))
           "db" ["orders"; "orders_mirror"]).
  vm_compute. reflexivity.
Defined.

(** X6.  The collector never returns more pairs than half the number of
    tables it was given. *)
Theorem get_mirrors_count
    (resolve : string -> M (option string)) (db_dir : string)
    (db_files : list string) (mirrors : list mirror_pair) :
  result (get_mirrors_with resolve db_dir db_files) = Ret mirrors ->
  2 * length mirrors <= length db_files.
Proof.
  rewrite get_mirrors_with_result. intros Hres.
  assert (NoDup (sides mirrors)) as Hnodup.
  { apply (get_mirrors_loop_exclusive _ _ _ _ _ _ Hres); [apply NoDup_nil_2 |].
    intros name _ Hx. now apply elem_of_nil in Hx. }
  destruct (get_mirrors_loop_shape _ _ _ _ _ _ Hres) as (news & Hout & _ & Hall).
  cbn [app] in Hout.
  assert (forall x, x ∈ sides mirrors -> x ∈ map (table_uri db_dir) db_files)
    as Hsub.
  { intros x Hx. unfold sides in Hx. apply list_elem_of_In, in_flat_map in Hx.
    destruct Hx as (item & Hitem & Hx). apply list_elem_of_In in Hitem.
    rewrite Hout in Hitem.
    apply list_elem_of_fmap in Hitem as (names & -> & Hnames).
    rewrite Forall_forall in Hall.
    destruct (Hall names Hnames) as (Hb & Hm & _).
    rewrite !elem_of_list_to_set in Hb, Hm.
    cbn [pair_of_names fst snd] in Hx.
    destruct Hx as [<- | [<- | []]]; now apply list_elem_of_fmap_2. }
  pose proof (submseteq_length _ _ (NoDup_submseteq _ _ Hnodup Hsub)) as Hlen.
  rewrite length_map in Hlen.
  assert (length (sides mirrors) = 2 * length mirrors) as Hsides.
  { clear. induction mirrors as [| item mirrors IH]; [reflexivity |].
    unfold sides in *. cbn [flat_map app length]. rewrite IH. lia. }
  lia.
Qed.

Lemma get_mirrors_count_witness : 2 * length [(table_uri "db" "orders", table_uri "db" "orders_mirror")] <= length ["orders"; "orders_mirror"; "customers"].
Proof.
  apply (get_mirrors_count
           (resolve_in (healthy_world orders_keys orders_catalog compare_match))
           "db" ["orders"; "orders_mirror"; "customers"]).
  vm_compute. reflexivity.
Defined.

(** ** PairCollector: what it reads and what it leaves open *)

Lemma resolve_in_eq (w : world) (key : string) :
  resolve_in w key = ([CursorGet key], get_mirror_file (w_lookup w) key).
Proof. reflexivity. Qed.

Lemma lookups_app (t1 t2 : list event) :
  lookups (t1 ++ t2) = lookups t1 ++ lookups t2.
Proof. apply omap_app. Qed.

Lemma get_mirrors_trace (w : world) (db_dir : string) (db_files : list string) :
  trace (get_mirrors w db_dir db_files)
  = [SessionOpen; CursorOpen "metadata:"]
    ++ trace (get_mirrors_loop (resolve_in w) db_dir db_files
                (list_to_set db_files) [])
    ++ match result (get_mirrors_loop (resolve_in w) db_dir db_files
                       (list_to_set db_files) []) with
       | Ret _ => [CursorClose; SessionClose]
       | Raise _ => []
       end.
Proof.
  unfold get_mirrors, get_mirrors_with.
  destruct (get_mirrors_loop _ _ _ _ _) as [t [mirrors | e]]; cbn;
    [reflexivity | now rewrite app_nil_r].
Qed.


Lemma get_mirrors_loop_raise
    (resolve : string -> M (option string)) (db_dir : string)
    (db_files : list string) (e : exn) :
  forall remaining mirrors,
    result (get_mirrors_loop resolve db_dir db_files remaining mirrors) = Raise e ->
    exists filename,
      filename ∈ db_files /\ result (resolve (table_key filename)) = Raise e.
Proof.
  induction db_files as [| filename db_files IH]; intros remaining mirrors Hres;
    cbn [get_mirrors_loop] in Hres; [discriminate |].
  assert (forall remaining' mirrors',
            result (get_mirrors_loop resolve db_dir db_files remaining' mirrors')
            = Raise e ->
            exists f, f ∈ filename :: db_files /\
                      result (resolve (table_key f)) = Raise e) as Hlater.
  { intros remaining' mirrors' H. destruct (IH _ _ H) as (f & Hf & Hr).
    exists f. split; [now apply list_elem_of_further | exact Hr]. }
  destruct (bool_decide _); [| now apply (Hlater _ _ Hres)].
  rewrite result_bind in Hres.
  destruct (result (resolve (table_key filename))) as [[mirror_name |] | e']
    eqn:Hresolve.
  - destruct (_ && _); now apply (Hlater _ _ Hres).
  - now apply (Hlater _ _ Hres).
  - injection Hres as ->. exists filename.
    split; [apply list_elem_of_here | exact Hresolve].
Qed.

(** With calm handles the collector is the one defined first. *)
Lemma calm_get_mirrors (w : world) (db_dir : string) (db_files : list string) :
  Engine.get_mirrors calm w db_dir db_files = get_mirrors w db_dir db_files.
Proof.
  unfold Engine.get_mirrors, get_mirrors, get_mirrors_with.
  cbn [calm h_open_session h_open_cursor h_cursor_close h_session_close].
  destruct (get_mirrors_loop _ _ _ _ _) as [t [mirrors | e]]; reflexivity.
Qed.




(** Invariant of the lookups of the collector loop: each one is for a table
    that is still remaining, so no key comes twice; and a table that gets
    onto the mirror side was remaining when the loop started and is not
    looked up by it. *)
Lemma get_mirrors_loop_lookups (w : world) (db_dir : string)
    (db_files : list string) :
  forall (remaining : gset string) (mirrors : list mirror_pair),
    NoDup (lookups (trace (get_mirrors_loop (resolve_in w) db_dir db_files
                             remaining mirrors))) /\
    (forall key,
       key ∈ lookups (trace (get_mirrors_loop (resolve_in w) db_dir db_files
                               remaining mirrors)) ->
       exists filename, key = table_key filename /\ filename ∈ remaining) /\
    (forall out,
       result (get_mirrors_loop (resolve_in w) db_dir db_files remaining mirrors)
       = Ret out ->
       exists news : list (string * string),
         out = mirrors ++ map (pair_of_names db_dir) news /\
         forall names, names ∈ news ->
           snd names ∈ remaining /\
           table_key (snd names)
           ∉ lookups (trace (get_mirrors_loop (resolve_in w) db_dir db_files
                               remaining mirrors))).
Proof.
  induction db_files as [| filename db_files IH]; intros remaining mirrors;
    cbn [get_mirrors_loop].
  - split; [apply NoDup_nil_2 |]. split.
    + intros key Hkey. now apply elem_of_nil in Hkey.
    + intros out Hout. injection Hout as <-. exists [].
      split; [now rewrite app_nil_r |].
      intros names Hnames. now apply elem_of_nil in Hnames.
  - case_bool_decide as Hin; [| apply IH].
    rewrite resolve_in_eq.
    (* the loop goes on from a smaller remaining set, with [extra] added *)
    assert (forall (remaining' : gset string) (extra : list (string * string)),
      (forall x, x ∈ remaining' -> x ∈ remaining /\ x <> filename) ->
      (forall names, names ∈ extra ->
         snd names ∈ remaining /\ snd names <> filename /\
         snd names ∉ remaining') ->
      let rest := get_mirrors_loop (resolve_in w) db_dir db_files remaining'
                    (mirrors ++ map (pair_of_names db_dir) extra) in
      NoDup (lookups ([CursorGet (table_key filename)] ++ trace rest)) /\
      (forall key,
         key ∈ lookups ([CursorGet (table_key filename)] ++ trace rest) ->
         exists f, key = table_key f /\ f ∈ remaining) /\
      (forall out, result rest = Ret out ->
         exists news, out = mirrors ++ map (pair_of_names db_dir) news /\
           forall names, names ∈ news ->
             snd names ∈ remaining /\
             table_key (snd names)
             ∉ lookups ([CursorGet (table_key filename)] ++ trace rest)))
      as Hstep.
    { intros remaining' extra Hsub Hextra rest.
      destruct (IH remaining' (mirrors ++ map (pair_of_names db_dir) extra))
        as (Hnodup & Hkeys & Hout).
      fold rest in Hnodup, Hkeys, Hout.
      rewrite lookups_app.
      change (lookups [CursorGet (table_key filename)])
        with [table_key filename].
      cbn [app].
      assert (forall name, table_key name ∈ lookups (trace rest) ->
                name ∈ remaining') as Hlooked.
      { intros name Hname. destruct (Hkeys _ Hname) as (f & Heq & Hf).
        apply table_key_inj in Heq. now subst. }
      split; [| split].
      - apply NoDup_cons. split; [| exact Hnodup].
        intros Hkey. apply Hlooked, Hsub in Hkey. now destruct Hkey.
      - intros key Hkey. apply elem_of_cons in Hkey as [-> | Hkey].
        + now exists filename.
        + destruct (Hkeys _ Hkey) as (f & -> & Hf). exists f.
          split; [reflexivity |]. now apply Hsub.
      - intros out Hres. destruct (Hout out Hres) as (news & -> & Hnews).
        exists (extra ++ news).
        split; [now rewrite map_app, app_assoc |].
        intros names Hnames. apply elem_of_app in Hnames as [Hnames | Hnames].
        + destruct (Hextra names Hnames) as (Hrem & Hne & Hgone).
          split; [exact Hrem |].
          intros Hkey. apply elem_of_cons in Hkey as [Hkey | Hkey].
          * apply table_key_inj in Hkey. contradiction.
          * apply Hlooked in Hkey. contradiction.
        + destruct (Hnews names Hnames) as (Hrem & Hnot).
          split; [now apply Hsub |].
          intros Hkey. apply elem_of_cons in Hkey as [Hkey | Hkey];
            [| contradiction].
          apply table_key_inj in Hkey. apply Hsub in Hrem. now destruct Hrem. }
    assert (forall x, x ∈ remaining ∖ {[filename]} ->
              x ∈ remaining /\ x <> filename) as Hsub1.
    { intros x Hx. apply elem_of_difference in Hx as [Hx Hne].
      rewrite elem_of_singleton in Hne. now split. }
    destruct (get_mirror_file (w_lookup w) (table_key filename))
      as [[mirror_name |] | e]; cbn [bind fst snd].
    + destruct (str_truthy mirror_name
                && bool_decide (mirror_name ∈ remaining ∖ {[filename]}))
        eqn:Hcond.
      * apply andb_prop in Hcond as [_ Hmem].
        apply bool_decide_eq_true in Hmem.
        destruct (Hsub1 _ Hmem) as [Hmrem Hmne].
        apply (Hstep (remaining ∖ {[filename]} ∖ {[mirror_name]})
                 [(filename, mirror_name)]).
        -- intros x Hx. apply elem_of_difference in Hx as [Hx _].
           now apply Hsub1.
        -- intros names Hnames. apply list_elem_of_singleton in Hnames as ->.
           cbn [snd]. repeat split; try assumption.
           intros Hx. apply elem_of_difference in Hx as [_ Hx].
           apply Hx. now apply elem_of_singleton.
      * specialize (Hstep (remaining ∖ {[filename]}) [] Hsub1).
        cbn [map] in Hstep. rewrite app_nil_r in Hstep. apply Hstep.
        intros names Hnames. now apply elem_of_nil in Hnames.
    + specialize (Hstep (remaining ∖ {[filename]}) [] Hsub1).
      cbn [map] in Hstep. rewrite app_nil_r in Hstep. apply Hstep.
      intros names Hnames. now apply elem_of_nil in Hnames.
    + cbn [trace fst result snd].
      change (lookups [CursorGet (table_key filename)])
        with [table_key filename].
      split; [apply NoDup_singleton |]. split.
      * intros key Hkey. apply list_elem_of_singleton in Hkey as ->.
        now exists filename.
      * intros out Hout. discriminate.
Qed.

(** X8.  [get_mirrors] reads the record of a table at most once, and it
    never reads the record of a table it places on the mirror side of a
    pair: that table's own metadata plays no part. *)
Theorem get_mirrors_lookups (w : world) (db_dir : string)
    (db_files : list string) :
  NoDup (lookups (trace (get_mirrors w db_dir db_files))) /\
  forall mirrors,
    result (get_mirrors w db_dir db_files) = Ret mirrors ->
    forall name,
      table_uri db_dir name ∈ map snd mirrors ->
      table_key name ∉ lookups (trace (get_mirrors w db_dir db_files)).
Proof.
  destruct (get_mirrors_loop_lookups w db_dir db_files (list_to_set db_files) [])
    as (Hnodup & _ & Hout).
  assert (lookups (trace (get_mirrors w db_dir db_files))
          = lookups (trace (get_mirrors_loop (resolve_in w) db_dir db_files
                              (list_to_set db_files) []))) as Hsame.
  { rewrite get_mirrors_trace, !lookups_app.
    destruct (result (get_mirrors_loop _ _ _ _ _)); cbn; now rewrite app_nil_r. }
  rewrite Hsame. split; [exact Hnodup |].
  intros mirrors Hres name Hname.
  unfold get_mirrors in Hres. rewrite get_mirrors_with_result in Hres.
  destruct (Hout mirrors Hres) as (news & -> & Hnews). cbn [app] in Hname.
  apply list_elem_of_fmap in Hname as (item & Hsnd & Hitem).
  apply list_elem_of_fmap in Hitem as (names & -> & Hnames).
  cbn [pair_of_names snd] in Hsnd. apply table_uri_inj in Hsnd as ->.
  now apply Hnews.
Qed.

(** ** PairCollector: consistent catalogs and catalogs without mirrors *)

Lemma pair_sides (item : mirror_pair) (mirrors : list mirror_pair) :
  item ∈ mirrors -> fst item ∈ sides mirrors /\ snd item ∈ sides mirrors.
Proof.
  intros Hitem. unfold sides.
  split; apply list_elem_of_In, in_flat_map; exists item;
    (split; [now apply list_elem_of_In | simpl; auto]).
Qed.

Section Consistent.

Variable resolve : string -> M (option string).
Variable db_dir : string.
Variable partner : string -> string.

(** Every table of the set names a partner in the set, other than itself,
    and the partner names it back. *)
Let consistent (tables : gset string) : Prop :=
  forall x, x ∈ tables ->
    result (resolve (table_key x)) = Ret (Some (partner x)) /\
    partner x ∈ tables /\ partner x <> x /\ partner x <> EmptyString /\
    partner (partner x) = x.

Lemma get_mirrors_loop_complete (db_files : list string) :
  forall (remaining : gset string) (mirrors : list mirror_pair),
    consistent remaining ->
    exists out,
      result (get_mirrors_loop resolve db_dir db_files remaining mirrors) = Ret out /\
      (forall u, u ∈ sides mirrors -> u ∈ sides out) /\
      (forall x, x ∈ db_files -> x ∈ remaining -> table_uri db_dir x ∈ sides out).
Proof.
  induction db_files as [| filename db_files IH]; intros remaining mirrors Hcons;
    cbn [get_mirrors_loop].
  - exists mirrors. split; [reflexivity |]. split; [auto |].
    intros x Hx. now apply elem_of_nil in Hx.
  - case_bool_decide as Hin.
    + destruct (Hcons filename Hin) as (Hresolve & Hprem & Hpne & Hpnonempty & Hinv).
      rewrite result_bind, Hresolve.
      assert (partner filename ∈ remaining ∖ {[filename]}) as Hmem.
      { apply elem_of_difference. split; [exact Hprem |].
        now rewrite elem_of_singleton. }
      rewrite (bool_decide_eq_true_2 _ Hmem).
      replace (str_truthy (partner filename)) with true
        by (destruct (partner filename); [contradiction | reflexivity]).
      cbn [andb].
      set (remaining' := remaining ∖ {[filename]} ∖ {[partner filename]}).
      assert (forall x, x ∈ remaining' <->
                x ∈ remaining /\ x <> filename /\ x <> partner filename) as Hrem'.
      { intros x. unfold remaining'.
        rewrite !elem_of_difference, !elem_of_singleton. tauto. }
      assert (consistent remaining') as Hcons'.
      { intros x Hx. apply Hrem' in Hx as (Hx & Hxf & Hxp).
        destruct (Hcons x Hx) as (Hr & Hp & Hne & Hnonempty & Hback).
        repeat split; try assumption.
        apply Hrem'. repeat split; [exact Hp | |].
        - intros Heq. apply Hxp. now rewrite <- Heq, Hback.
        - intros Heq. apply Hxf. now rewrite <- Hback, Heq, Hinv. }
      destruct (IH remaining'
                  (mirrors ++ [(table_uri db_dir filename,
                                table_uri db_dir (partner filename))]) Hcons')
        as (out & Hout & Hkeep & Hall).
      exists out. split; [exact Hout |].
      rewrite sides_snoc in Hkeep. cbn [fst snd] in Hkeep.
      split.
      * intros u Hu. apply Hkeep, elem_of_app. now left.
      * intros x Hx Hxrem.
        destruct (decide (x = filename)) as [-> | Hxf].
        { apply Hkeep, elem_of_app. right. apply list_elem_of_here. }
        destruct (decide (x = partner filename)) as [-> | Hxp].
        { apply Hkeep, elem_of_app. right.
          apply list_elem_of_further, list_elem_of_here. }
        apply elem_of_cons in Hx as [Hx | Hx]; [contradiction |].
        apply Hall; [exact Hx |]. now apply Hrem'.
    + destruct (IH remaining mirrors Hcons) as (out & Hout & Hkeep & Hall).
      exists out. split; [exact Hout |]. split; [exact Hkeep |].
      intros x Hx Hxrem. apply elem_of_cons in Hx as [-> | Hx];
        [contradiction | now apply Hall].
Qed.

End Consistent.

(** X9.  On a consistent catalog the collector leaves no table out: when
    every table of the list resolves to another table of the list that
    resolves back to it, [get_mirrors] returns, and every table of the list
    is on one side of a returned pair. *)
Theorem get_mirrors_complete
    (resolve : string -> M (option string)) (db_dir : string)
    (partner : string -> string) (db_files : list string) :
  (forall x, x ∈ db_files ->
     result (resolve (table_key x)) = Ret (Some (partner x)) /\
     partner x ∈ db_files /\ partner x <> x /\ partner x <> EmptyString /\
     partner (partner x) = x) ->
  exists mirrors,
    result (get_mirrors_with resolve db_dir db_files) = Ret mirrors /\
    forall x, x ∈ db_files -> table_uri db_dir x ∈ sides mirrors.
Proof.
  intros Hcons. rewrite get_mirrors_with_result.
  destruct (get_mirrors_loop_complete resolve db_dir partner db_files
              (list_to_set db_files) []) as (out & Hout & _ & Hall).
  - intros x Hx. apply elem_of_list_to_set in Hx.
    destruct (Hcons x Hx) as (Hr & Hp & Hrest).
    split; [exact Hr |]. split; [now apply elem_of_list_to_set | exact Hrest].
  - exists out. split; [exact Hout |].
    intros x Hx. apply Hall; [exact Hx | now apply elem_of_list_to_set].
Qed.

Lemma get_mirrors_complete_witness :
  exists mirrors,
    result (get_mirrors_with
              (resolve_in (healthy_world orders_keys orders_catalog compare_match))
              "db" ["orders"; "orders_mirror"]) = Ret mirrors /\
    forall x, x ∈ ["orders"; "orders_mirror"] -> table_uri "db" x ∈ sides mirrors.
Proof.
  apply (get_mirrors_complete
           (resolve_in (healthy_world orders_keys orders_catalog compare_match))
           "db"
           (fun x => if String.eqb x "orders" then "orders_mirror" else "orders")
           ["orders"; "orders_mirror"]).
  intros x Hx.
  apply elem_of_cons in Hx as [-> | Hx];
    [| apply list_elem_of_singleton in Hx as ->].
  - split; [vm_compute; reflexivity |].
    split; [apply list_elem_of_further, list_elem_of_here |].
    split; [discriminate |]. split; [discriminate | reflexivity].
  - split; [vm_compute; reflexivity |].
    split; [apply list_elem_of_here |].
    split; [discriminate |]. split; [discriminate | reflexivity].
Defined.

(** X10.  A database without mirrored tables passes: when the scan returns
    a list of tables and the resolver finds no mirror for any of them,
    [get_mirrors] returns no pair, and [main] prints only the success line
    for 0 pairs and exits with status 0. *)
Theorem main_no_mirrors (w : world) (db_dir : string) (t : list event)
    (db_files : list string) :
  w_open w db_dir = Ret tt ->
  get_wiredtiger_db_files w = (t, Ret db_files) ->
  (forall filename, filename ∈ db_files ->
     get_mirror_file (w_lookup w) (table_key filename) = Ret None) ->
  result (get_mirrors w db_dir db_files) = Ret [] /\
  printed (trace (main w [db_dir])) = [success_line 0 db_dir] /\
  result (main w [db_dir]) = Raise (SystemExit (CodeInt 0)).
Proof.
  intros Hopen Hscan Hnone.
  assert (result (get_mirrors w db_dir db_files) = Ret []) as Hpairs.
  { unfold get_mirrors. rewrite get_mirrors_with_result.
    destruct (result (get_mirrors_loop _ _ _ _ _)) as [out | e] eqn:Hres.
    - destruct (get_mirrors_loop_shape _ _ _ _ _ _ Hres) as (news & -> & _ & Hall).
      destruct news as [| names news]; [reflexivity |].
      apply Forall_cons_1 in Hall as [(Hb & _ & _ & _ & Hr) _].
      apply elem_of_list_to_set in Hb.
      rewrite resolve_in_eq, (Hnone _ Hb) in Hr. discriminate.
    - destruct (get_mirrors_loop_raise _ _ _ _ _ _ Hres) as (f & Hf & Hr).
      rewrite resolve_in_eq, (Hnone _ Hf) in Hr. discriminate. }
  split; [exact Hpairs |].
  pose proof (get_mirrors_events w db_dir db_files) as Hevents.
  destruct (get_mirrors w db_dir db_files) as [t2 r] eqn:Hrun.
  unfold result in Hpairs. cbn [snd] in Hpairs. subst r.
  unfold trace in Hevents. cbn [fst] in Hevents.
  rewrite (main_scanned w db_dir _ _ _ _ Hopen Hscan Hrun).
  rewrite (validate_and_report_run w db_dir [] [] 0 eq_refl).
  unfold trace, result. cbn [fst snd]. split; [| reflexivity].
  assert (printed t = []) as Ht.
  { apply printed_scan. pose proof (get_wiredtiger_db_files_events w) as H.
    now rewrite Hscan in H. }
  change (ConnOpen db_dir "readonly" :: t ++ ?r)
    with ([ConnOpen db_dir "readonly"] ++ t ++ r).
  rewrite !printed_app, Ht, (printed_scan _ Hevents). reflexivity.
Qed.

Lemma main_no_mirrors_witness :
  result (get_mirrors
            (healthy_world ["file:customers.wt"; "file:orders.wt"] ∅ compare_match)
            "db" ["customers"; "orders"]) = Ret [] /\
  printed (trace (main (healthy_world ["file:customers.wt"; "file:orders.wt"] ∅
                          compare_match) ["db"]))
  = [success_line 0 "db"] /\
  result (main (healthy_world ["file:customers.wt"; "file:orders.wt"] ∅
                  compare_match) ["db"])
  = Raise (SystemExit (CodeInt 0)).
Proof.
  apply (main_no_mirrors
           (healthy_world ["file:customers.wt"; "file:orders.wt"] ∅ compare_match)
           "db"
           (trace (get_wiredtiger_db_files
                     (healthy_world ["file:customers.wt"; "file:orders.wt"] ∅
                        compare_match)))
           ["customers"; "orders"]).
  - reflexivity.
  - vm_compute. reflexivity.
  - intros filename _. reflexivity.
Defined.


(** ** MirrorResolver: errors and the Workgen encoding *)

Lemma build_app_metadata_raise (elements : list string) (e : exn) :
  forall acc, build_app_metadata elements acc = Raise e -> e = ValueError.
Proof.
  induction elements as [| element elements IH]; intros acc; simpl;
    [discriminate |].
  destruct (PyStr.split "=" element) as [| a [| b [| c parts]]];
    try (intros H; now injection H as <-).
  apply IH.
Qed.

(** X11.  [get_mirror_file] fails in four ways only: ValueError from the
    parse of the quoted text, IndexError from a mirror value without a
    colon, UnboundLocalError after a lookup failure it swallowed, or an
    exception of the lookup that is not an instance of Exception, which it
    lets through.  No Exception instance raised by the lookup ever leaves
    the function as it came, and a lookup that returns never leads to
    UnboundLocalError. *)
Theorem get_mirror_file_errors (metadata_cursor : cursor_lookup)
    (filename : string) (e : exn) :
  get_mirror_file metadata_cursor filename = Raise e ->
  (exists metadata, metadata_cursor filename = Ret metadata /\
                    (e = ValueError \/ e = IndexError)) \/
  (exists cls, metadata_cursor filename = Raise (Exc cls) /\
               cls <> "KeyError" /\ e = UnboundLocalError) \/
  (metadata_cursor filename = Raise e /\ forall cls, e <> Exc cls).
Proof.
  unfold get_mirror_file, lookup_metadata.
  destruct (metadata_cursor filename) as [metadata | [cls | code | cls]].
  - intros H. left. exists metadata. split; [reflexivity |].
    destruct (findall_app_metadata metadata) as [| quoted others];
      [discriminate |].
    destruct (parse_app_metadata quoted) as [d | e'] eqn:Hparse.
    + destruct (bool_decide (d !! "workgen_dynamic_table" = Some "true"));
        [| discriminate].
      destruct (d !! "workgen_table_mirror") as [mirror |].
      * cbn in H. destruct (PyStr.split ":" mirror) as [| a [| name parts]];
          try discriminate; injection H as <-; now right.
      * rewrite bool_decide_eq_false_2 in H by (intros Hne; now apply Hne).
        discriminate.
    + injection H as <-. left.
      now apply (build_app_metadata_raise _ _ _ Hparse).
  - destruct (String.eqb_spec cls "KeyError") as [-> | Hne]; [discriminate |].
    intros H. injection H as <-. right. left. exists cls. now repeat split.
  - intros H. injection H as <-. right. right.
    split; [reflexivity | discriminate].
  - intros H. injection H as <-. right. right.
    split; [reflexivity | discriminate].
Qed.

Lemma get_mirror_file_errors_witness :
  (exists metadata,
     cursor_of_catalog malformed_catalog "table:t" = Ret metadata /\
     (ValueError = ValueError \/ ValueError = IndexError)) \/
  (exists cls, cursor_of_catalog malformed_catalog "table:t" = Raise (Exc cls) /\
               cls <> "KeyError" /\ ValueError = UnboundLocalError) \/
  (cursor_of_catalog malformed_catalog "table:t" = Raise ValueError /\
   forall cls, ValueError <> Exc cls).
Proof.
  apply (get_mirror_file_errors (cursor_of_catalog malformed_catalog) "table:t").
  vm_compute. reflexivity.
Defined.

Module Encoding.
Import PyStr.

Lemma append_cons (c : ascii) (s t : string) :
  String c s +:+ t = String c (s +:+ t).
Proof. reflexivity. Qed.

Lemma append_nil (t : string) : EmptyString +:+ t = t.
Proof. reflexivity. Qed.

Lemma count_append (c : ascii) (s t : string) :
  count c (s +:+ t) = count c s + count c t.
Proof.
  induction s as [| a s IH]; simpl; [reflexivity |]. rewrite IH. lia.
Qed.

Lemma split_clean (sep : ascii) (t : string) :
  count sep t = 0 -> split sep t = [t].
Proof.
  induction t as [| c t IH]; simpl; [reflexivity |].
  destruct (Ascii.eqb c sep); simpl; [discriminate |].
  intros H. now rewrite (IH H).
Qed.

(** Text without the separator, appended to a text, lengthens the last
    part of its split. *)
Lemma split_append (sep : ascii) (s t : string) :
  count sep t = 0 ->
  split sep (s +:+ t) = append_last (split sep s) t.
Proof.
  intros Ht. induction s as [| c s IH].
  - simpl. now apply split_clean.
  - rewrite append_cons. cbn [split]. rewrite IH.
    pose proof (PyStrFacts.split_length sep s) as Hlen.
    destruct (split sep s) as [| h [| h' parts]]; [discriminate | |];
      destruct (Ascii.eqb c sep); reflexivity.
Qed.

Lemma strip_prefix_append (lit s : string) :
  strip_prefix lit (lit +:+ s) = Some s.
Proof.
  induction lit as [| c lit IH]; simpl; [reflexivity |].
  now rewrite Ascii.eqb_refl.
Qed.

Lemma break_at_closing (q : ascii) (g rest : string) :
  count q g = 0 -> break_at q (g +:+ String q rest) = Some (g, rest).
Proof.
  induction g as [| c g IH]; simpl.
  - intros _. now rewrite Ascii.eqb_refl.
  - destruct (Ascii.eqb c q); simpl; [discriminate |].
    intros H. now rewrite (IH H).
Qed.

(** A text that opens with the literal, a group free of the quote and the
    quote: the group is the first match. *)
Lemma findall_quoted_head (lit : string) (q : ascii) (g rest : string) :
  lit <> EmptyString -> count q g = 0 ->
  exists others,
    findall_quoted lit q (lit +:+ g +:+ String q rest) = g :: others.
Proof.
  intros Hlit Hg. unfold findall_quoted.
  destruct lit as [| c lit]; [contradiction |].
  rewrite append_cons. cbn [String.length findall_quoted_fuel].
  rewrite <- append_cons, strip_prefix_append, (break_at_closing _ _ _ Hg).
  eexists. reflexivity.
Qed.

Lemma rstrip_cons (c : ascii) (s : string) :
  isspace c = false -> rstrip (String c s) = String c (rstrip s).
Proof. intros Hc. simpl. rewrite Hc. now destruct (rstrip s). Qed.

End Encoding.

(** X12.  The resolver reads back what Workgen writes: for a record that
    opens with the quoted application metadata
    [workgen_dynamic_table=true,workgen_table_mirror=table:NAME], whatever
    follows it, [get_mirror_file] returns [NAME], provided [NAME] has no
    double quote, comma, equals sign or colon and no trailing white
    space. *)
Theorem get_mirror_file_round_trip (metadata_cursor : cursor_lookup)
    (filename name rest : string) :
  metadata_cursor filename = Ret (workgen_record name rest) ->
  PyStr.count PyStr.dquote name = 0 ->
  PyStr.count "," name = 0 ->
  PyStr.count "=" name = 0 ->
  PyStr.count ":" name = 0 ->
  PyStr.rstrip name = name ->
  get_mirror_file metadata_cursor filename = Ret (Some name).
Proof.
  intros Hget Hquote Hcomma Hequals Hcolon Hspace.
  unfold get_mirror_file, lookup_metadata. rewrite Hget.
  destruct (Encoding.findall_quoted_head
              ("app_metadata=" +:+ String PyStr.dquote EmptyString)
              PyStr.dquote (mirror_of name) rest) as (others & Hfind).
  { discriminate. }
  { unfold mirror_of. rewrite Encoding.count_append, Hquote. reflexivity. }
  unfold findall_app_metadata, workgen_record.
  change ("app_metadata=" +:+ String PyStr.dquote
            (mirror_of name +:+ String PyStr.dquote rest))
    with (("app_metadata=" +:+ String PyStr.dquote EmptyString)
          +:+ mirror_of name +:+ String PyStr.dquote rest).
  rewrite Hfind.
  unfold parse_app_metadata, mirror_of.
  rewrite (Encoding.split_append "," _ name Hcomma).
  change (PyStr.split ","
            "workgen_dynamic_table=true,workgen_table_mirror=table:")
    with ["workgen_dynamic_table=true"; "workgen_table_mirror=table:"].
  cbn [append_last build_app_metadata].
  change (PyStr.split "=" "workgen_dynamic_table=true")
    with ["workgen_dynamic_table"; "true"].
  rewrite (Encoding.split_append "=" _ name Hequals).
  change (PyStr.split "=" "workgen_table_mirror=table:")
    with ["workgen_table_mirror"; "table:"].
  cbn [append_last].
  change (PyStr.strip "workgen_dynamic_table") with "workgen_dynamic_table".
  change (PyStr.strip "true") with "true".
  change (PyStr.strip "workgen_table_mirror") with "workgen_table_mirror".
  assert (PyStr.strip ("table:" +:+ name) = "table:" +:+ name) as ->.
  { unfold PyStr.strip. rewrite !Encoding.append_cons, Encoding.append_nil.
    cbn [PyStr.lstrip].
    change (PyStr.isspace "t") with false. cbn iota.
    rewrite !Encoding.rstrip_cons by reflexivity. now rewrite Hspace. }
  rewrite lookup_insert_ne by discriminate.
  rewrite !lookup_insert_eq.
  rewrite bool_decide_eq_true_2 by reflexivity.
  rewrite bool_decide_eq_true_2 by discriminate.
  cbn [andb].
  rewrite (Encoding.split_append ":" _ name Hcolon).
  reflexivity.
Qed.

Lemma get_mirror_file_round_trip_witness :
  get_mirror_file (cursor_of_catalog orders_catalog) "table:orders"
  = Ret (Some "orders_mirror").
Proof.
  apply (get_mirror_file_round_trip (cursor_of_catalog orders_catalog)
           "table:orders" "orders_mirror"
           ",colgroups=,collator=,columns=,key_format=S,value_format=S");
    vm_compute; reflexivity.
Defined.

Module Charset.
Import PyStr.

Lemma split_parts_clean (sep : ascii) (s : string) :
  forall part, part ∈ split sep s -> count sep part = 0.
Proof.
  induction s as [| c s IH]; simpl; intros part Hpart.
  - apply list_elem_of_singleton in Hpart as ->. reflexivity.
  - destruct (Ascii.eqb c sep) eqn:Hc.
    + apply elem_of_cons in Hpart as [-> | Hpart]; [reflexivity | now apply IH].
    + pose proof (PyStrFacts.split_length sep s) as Hlen.
      destruct (split sep s) as [| h parts]; [discriminate |].
      apply elem_of_cons in Hpart as [-> | Hpart].
      * simpl. rewrite Hc. apply IH, list_elem_of_here.
      * apply IH. now apply list_elem_of_further.
Qed.

Lemma split_parts_count (sep c : ascii) (s : string) :
  forall part, part ∈ split sep s -> count c part <= count c s.
Proof.
  induction s as [| a s IH]; simpl; intros part Hpart.
  - apply list_elem_of_singleton in Hpart as ->. reflexivity.
  - destruct (Ascii.eqb a sep).
    + apply elem_of_cons in Hpart as [-> | Hpart]; [simpl; lia |].
      specialize (IH part Hpart). lia.
    + pose proof (PyStrFacts.split_length sep s) as Hlen.
      destruct (split sep s) as [| h parts]; [discriminate |].
      apply elem_of_cons in Hpart as [-> | Hpart].
      * simpl. specialize (IH h (list_elem_of_here _ _)). lia.
      * specialize (IH part (list_elem_of_further _ _ _ Hpart)). lia.
Qed.

Lemma lstrip_count (c : ascii) (s : string) : count c (lstrip s) <= count c s.
Proof.
  induction s as [| a s IH]; simpl; [lia |].
  destruct (isspace a); simpl; lia.
Qed.

Lemma rstrip_count (c : ascii) (s : string) : count c (rstrip s) <= count c s.
Proof.
  induction s as [| a s IH]; simpl; [lia |].
  destruct (rstrip s) as [| b r]; [destruct (isspace a) |]; simpl in *; lia.
Qed.

Lemma strip_count (c : ascii) (s : string) : count c (strip s) <= count c s.
Proof.
  unfold strip. pose proof (rstrip_count c (lstrip s)).
  pose proof (lstrip_count c s). lia.
Qed.

Lemma break_at_group (q : ascii) (s g rest : string) :
  break_at q s = Some (g, rest) -> count q g = 0.
Proof.
  revert g. induction s as [| c s IH]; simpl; intros g H; [discriminate |].
  destruct (Ascii.eqb c q) eqn:Hc.
  - now injection H as <- _.
  - destruct (break_at q s) as [[g' rest'] |]; [| discriminate].
    injection H as <- ->. simpl. rewrite Hc. now apply IH.
Qed.

Lemma findall_quoted_groups (lit : string) (q : ascii) (fuel : nat) :
  forall s g, g ∈ findall_quoted_fuel fuel lit q s -> count q g = 0.
Proof.
  induction fuel as [| fuel IH]; intros s g Hg; cbn [findall_quoted_fuel] in Hg.
  - now apply elem_of_nil in Hg.
  - destruct s as [| c s].
    + destruct (strip_prefix lit EmptyString) as [rest |];
        [| now apply elem_of_nil in Hg].
      destruct (break_at q rest) as [[g' rest'] |] eqn:Hb;
        [| now apply elem_of_nil in Hg].
      apply list_elem_of_singleton in Hg as ->.
      now apply (break_at_group _ _ _ _ Hb).
    + destruct (strip_prefix lit (String c s)) as [rest |]; [| now apply IH in Hg].
      destruct (break_at q rest) as [[g' rest'] |] eqn:Hb; [| now apply IH in Hg].
      apply elem_of_cons in Hg as [-> | Hg]; [| now apply IH in Hg].
      now apply (break_at_group _ _ _ _ Hb).
Qed.

(** Every value of the parsed metadata is the stripped second part of one
    of the elements. *)
Lemma build_app_metadata_values (elements : list string) :
  forall (acc d : gmap string string) (key value : string),
    build_app_metadata elements acc = Ret d ->
    d !! key = Some value ->
    acc !! key = Some value \/
    exists element a b,
      element ∈ elements /\ split "=" element = [a; b] /\ value = strip b.
Proof.
  induction elements as [| element elements IH]; intros acc d key value;
    cbn [build_app_metadata].
  - intros H. injection H as <-. now left.
  - destruct (split "=" element) as [| a [| b [| c parts]]] eqn:Hsplit;
      try discriminate.
    intros Hbuild Hlookup.
    destruct (IH _ _ _ _ Hbuild Hlookup) as [Hacc | (el & a' & b' & Hel & Hs & Hv)].
    + destruct (decide (strip a = key)) as [<- | Hne].
      * rewrite lookup_insert_eq in Hacc. injection Hacc as <-.
        right. exists element, a, b.
        split; [apply list_elem_of_here | now split].
      * rewrite lookup_insert_ne in Hacc by exact Hne. now left.
    + right. exists el, a', b'.
      split; [now apply list_elem_of_further | now split].
Qed.

End Charset.

(** X13.  A mirror name returned by [get_mirror_file] never contains a
    colon, an equals sign, a comma or a double quote: the parse cuts the
    configured value at each of them. *)
Theorem get_mirror_file_name_charset (metadata_cursor : cursor_lookup)
    (filename name : string) :
  get_mirror_file metadata_cursor filename = Ret (Some name) ->
  PyStr.count ":" name = 0 /\ PyStr.count "=" name = 0 /\
  PyStr.count "," name = 0 /\ PyStr.count PyStr.dquote name = 0.
Proof.
  unfold get_mirror_file, lookup_metadata.
  destruct (metadata_cursor filename) as [metadata | [cls | code | cls]];
    [| destruct (String.eqb cls "KeyError"); discriminate
     | discriminate | discriminate].
  destruct (findall_app_metadata metadata) as [| quoted others] eqn:Hfind;
    [discriminate |].
  destruct (parse_app_metadata quoted) as [d | e] eqn:Hparse; [| discriminate].
  destruct (_ && _); [| discriminate].
  destruct (d !! "workgen_table_mirror") as [mirror |] eqn:Hmirror;
    [| discriminate].
  destruct (PyStr.split ":" mirror) as [| first [| name' parts]] eqn:Hsplit;
    try discriminate.
  intros H. injection H as ->.
  assert (name ∈ PyStr.split ":" mirror) as Hname.
  { rewrite Hsplit. apply list_elem_of_further, list_elem_of_here. }
  assert (PyStr.count PyStr.dquote quoted = 0) as Hquoted.
  { apply (Charset.findall_quoted_groups
             ("app_metadata=" +:+ String PyStr.dquote EmptyString) PyStr.dquote
             (S (String.length metadata)) metadata).
    unfold findall_app_metadata, PyStr.findall_quoted in Hfind.
    rewrite Hfind. apply list_elem_of_here. }
  destruct (Charset.build_app_metadata_values _ _ _ _ _ Hparse Hmirror)
    as [Hempty | (element & a & b & Helement & Hparts & ->)];
    [rewrite lookup_empty in Hempty; discriminate |].
  assert (b ∈ PyStr.split "=" element) as Hb.
  { rewrite Hparts. apply list_elem_of_further, list_elem_of_here. }
  assert (forall c, PyStr.count c name <= PyStr.count c b) as Hle.
  { intros c. pose proof (Charset.split_parts_count ":" c _ _ Hname).
    pose proof (Charset.strip_count c b). lia. }
  split; [exact (Charset.split_parts_clean _ _ _ Hname) |].
  split.
  { pose proof (Charset.split_parts_clean _ _ _ Hb). specialize (Hle "="%char).
    lia. }
  split.
  { pose proof (Charset.split_parts_clean _ _ _ Helement).
    pose proof (Charset.split_parts_count "=" "," _ _ Hb).
    specialize (Hle ","%char). lia. }
  pose proof (Charset.split_parts_count "," PyStr.dquote _ _ Helement).
  pose proof (Charset.split_parts_count "=" PyStr.dquote _ _ Hb).
  specialize (Hle PyStr.dquote). lia.
Qed.

Lemma get_mirror_file_name_charset_witness :
  PyStr.count ":" "a" = 0 /\ PyStr.count "=" "a" = 0 /\
  PyStr.count "," "a" = 0 /\ PyStr.count PyStr.dquote "a" = 0.
Proof.
  apply (get_mirror_file_name_charset
           (cursor_of_catalog
              (<[ "table:t" := table_config (mirror_of "a:b") ]> ∅))
           "table:t" "a").
  vm_compute. reflexivity.
Defined.


(** ** ValidationRunner: counting, order and fatal errors *)

Lemma compared_app (t1 t2 : list event) :
  compared (t1 ++ t2) = compared t1 ++ compared t2.
Proof. apply omap_app. Qed.

Lemma compared_scan (t : list event) : only is_scan_event t -> compared t = [].
Proof.
  induction 1 as [| ev t Hev _ IH]; [reflexivity |].
  unfold compared in *. cbn [omap list_omap]. rewrite IH.
  destruct ev; try discriminate; reflexivity.
Qed.

(** The loop on pairs whose comparisons all return or exit. *)
Lemma validate_loop_run (w : world) (mirrors : list mirror_pair) :
  Forall (fun item => ends_by_exit w item = true) mirrors ->
  forall failure_count,
    result (validate_loop w mirrors failure_count)
    = Ret (failure_count + length (List.filter (mismatched w) mirrors)) /\
    printed (trace (validate_loop w mirrors failure_count))
    = map (fun item => mismatch_line item None)
          (List.filter (mismatched w) mirrors) /\
    compared (trace (validate_loop w mirrors failure_count)) = mirrors.
Proof.
  induction 1 as [| item mirrors Hitem _ IH]; intros failure_count;
    cbn [validate_loop List.filter].
  - split; [| split]; try reflexivity. cbn. f_equal. lia.
  - unfold ends_by_exit in Hitem.
    assert (mismatched w item
            = match cmp_end (w_compare w item) with
              | Raise (SystemExit code) => code_nonzero code
              | _ => false
              end) as Hm by reflexivity.
    destruct (cmp_end (w_compare w item)) as [v | [cls | code | cls]];
      try discriminate; rewrite Hm.
    + destruct (IH failure_count) as (Hr & Hp & Hc).
      unfold trace, result, printed, compared in *. cbn.
      split; [exact Hr |]. split; [exact Hp | now f_equal].
    + destruct (code_nonzero code).
      * destruct (IH (failure_count + 1)) as (Hr & Hp & Hc).
        unfold trace, result, printed, compared in *. cbn.
        split; [rewrite Hr; f_equal; lia |].
        split; [now f_equal | now f_equal].
      * destruct (IH failure_count) as (Hr & Hp & Hc).
        unfold trace, result, printed, compared in *. cbn.
        split; [exact Hr |]. split; [exact Hp | now f_equal].
Qed.

(** X14.  When every comparison returns or exits, the failure count is the
    number of pairs whose comparison ended with a SystemExit code other
    than the integer 0 (a missing code or a text counts as a failure), and
    the loop prints exactly one mismatch line for each of them, in order,
    and nothing else. *)
Theorem validate_loop_failures (w : world) (mirrors : list mirror_pair) :
  Forall (fun item => ends_by_exit w item = true) mirrors ->
  result (validate_loop w mirrors 0)
  = Ret (length (List.filter (mismatched w) mirrors)) /\
  printed (trace (validate_loop w mirrors 0))
  = map (fun item => "Mirror mismatch " +:+ str_of_item item +:+ ": None")
        (List.filter (mismatched w) mirrors).
Proof.
  intros Hall. destruct (validate_loop_run w mirrors Hall 0) as (Hr & Hp & _).
  split; [exact Hr | exact Hp].
Qed.

Lemma validate_loop_failures_witness :
  result (validate_loop
            (healthy_world orders_keys orders_catalog
               (fun item =>
                  {| cmp_text := "";
                     cmp_end := Raise (SystemExit
                                  (if String.eqb (fst item) "db/table:a"
                                   then CodeNone else CodeInt 0)) |}))
            [("db/table:a", "db/table:b"); ("db/table:c", "db/table:d")] 0)
  = Ret 1 /\
  printed (trace (validate_loop
            (healthy_world orders_keys orders_catalog
               (fun item =>
                  {| cmp_text := "";
                     cmp_end := Raise (SystemExit
                                  (if String.eqb (fst item) "db/table:a"
                                   then CodeNone else CodeInt 0)) |}))
            [("db/table:a", "db/table:b"); ("db/table:c", "db/table:d")] 0))
  = ["Mirror mismatch ['db/table:a', 'db/table:b']: None"].
Proof.
  apply (validate_loop_failures
           (healthy_world orders_keys orders_catalog
              (fun item =>
                 {| cmp_text := "";
                    cmp_end := Raise (SystemExit
                                 (if String.eqb (fst item) "db/table:a"
                                  then CodeNone else CodeInt 0)) |}))
           [("db/table:a", "db/table:b"); ("db/table:c", "db/table:d")]).
  repeat (apply Forall_cons_2; [reflexivity |]). apply Forall_nil_2.
Defined.

(** X15.  A mismatch does not stop the validation: when every comparison
    returns or exits, each pair is handed to the comparison utility exactly
    once, in the order of the list. *)
Theorem validate_loop_compares_all (w : world) (mirrors : list mirror_pair) :
  Forall (fun item => ends_by_exit w item = true) mirrors ->
  compared (trace (validate_loop w mirrors 0)) = mirrors.
Proof.
  intros Hall. now destruct (validate_loop_run w mirrors Hall 0) as (_ & _ & Hc).
Qed.

Lemma validate_loop_compares_all_witness :
  compared (trace (validate_loop
                     (healthy_world orders_keys orders_catalog compare_mismatch)
                     [("db/table:a", "db/table:b"); ("db/table:c", "db/table:d")]
                     0))
  = [("db/table:a", "db/table:b"); ("db/table:c", "db/table:d")].
Proof.
  apply (validate_loop_compares_all
           (healthy_world orders_keys orders_catalog compare_mismatch)
           [("db/table:a", "db/table:b"); ("db/table:c", "db/table:d")]).
  repeat (apply Forall_cons_2; [reflexivity |]). apply Forall_nil_2.
Defined.

Lemma validate_loop_bounds (w : world) (mirrors : list mirror_pair) :
  forall failure_count F,
    result (validate_loop w mirrors failure_count) = Ret F ->
    failure_count <= F <= failure_count + length mirrors.
Proof.
  induction mirrors as [| item mirrors IH]; intros failure_count F;
    cbn [validate_loop].
  - intros H. injection H as <-. simpl. lia.
  - rewrite !result_bind. cbn [result emit snd].
    destruct (cmp_end (w_compare w item)) as [v | [cls | code | cls]];
      try discriminate.
    + intros H. apply IH in H. simpl. lia.
    + destruct (code_nonzero code).
      * rewrite result_bind. cbn [result emit snd].
        intros H. apply IH in H. simpl. lia.
      * intros H. apply IH in H. simpl. lia.
Qed.

(** X16.  The failure count a completed validation reports never exceeds
    the number of pairs. *)
Theorem validate_loop_at_most_all (w : world) (mirrors : list mirror_pair)
    (F : nat) :
  result (validate_loop w mirrors 0) = Ret F -> F <= length mirrors.
Proof. intros H. apply validate_loop_bounds in H. lia. Qed.

Lemma validate_loop_at_most_all_witness :
  1 <= length [(table_uri "db" "orders", table_uri "db" "orders_mirror")].
Proof.
  apply (validate_loop_at_most_all
           (healthy_world orders_keys orders_catalog compare_mismatch)
           [(table_uri "db" "orders", table_uri "db" "orders_mirror")] 1).
  reflexivity.
Defined.

Lemma validate_loop_fatal (w : world) (before after : list mirror_pair)
    (item : mirror_pair) (e : exn) :
  Forall (fun item => ends_by_exit w item = true) before ->
  cmp_end (w_compare w item) = Raise e ->
  (forall code, e <> SystemExit code) ->
  forall failure_count,
    result (validate_loop w (before ++ item :: after) failure_count) = Raise e /\
    compared (trace (validate_loop w (before ++ item :: after) failure_count))
    = before ++ [item] /\
    printed (trace (validate_loop w (before ++ item :: after) failure_count))
    = map (fun item => mismatch_line item None)
          (List.filter (mismatched w) before).
Proof.
  intros Hbefore Hend Hfatal.
  induction Hbefore as [| first before Hfirst _ IH]; intros failure_count;
    cbn [app validate_loop List.filter].
  - rewrite Hend.
    destruct e as [cls | code | cls];
      [| now contradiction (Hfatal code) |]; repeat split.
  - unfold ends_by_exit in Hfirst.
    assert (mismatched w first
            = match cmp_end (w_compare w first) with
              | Raise (SystemExit code) => code_nonzero code
              | _ => false
              end) as Hm by reflexivity.
    destruct (cmp_end (w_compare w first)) as [v | [cls | code | cls]];
      try discriminate; rewrite Hm.
    + destruct (IH failure_count) as (Hr & Hc & Hp).
      unfold trace, result, printed, compared in *. cbn.
      split; [exact Hr |]. split; [now f_equal | exact Hp].
    + destruct (code_nonzero code).
      * destruct (IH (failure_count + 1)) as (Hr & Hc & Hp).
        unfold trace, result, printed, compared in *. cbn.
        split; [exact Hr |]. split; now f_equal.
      * destruct (IH failure_count) as (Hr & Hc & Hp).
        unfold trace, result, printed, compared in *. cbn.
        split; [exact Hr |]. split; [now f_equal | exact Hp].
Qed.

(** What is printed and compared in a run whose scan completed is what the
    statements after the close print and compare. *)
Lemma main_after_scan (w : world) (db_dir : string) (t1 t2 : list event)
    (db_files : list string) (mirrors : list mirror_pair) :
  w_open w db_dir = Ret tt ->
  get_wiredtiger_db_files w = (t1, Ret db_files) ->
  get_mirrors w db_dir db_files = (t2, Ret mirrors) ->
  result (main w [db_dir]) = result (validate_and_report w db_dir mirrors) /\
  printed (trace (main w [db_dir]))
  = printed (trace (validate_and_report w db_dir mirrors)) /\
  compared (trace (main w [db_dir]))
  = compared (trace (validate_and_report w db_dir mirrors)).
Proof.
  intros Hopen Hscan Hpairs.
  pose proof (main_scanned w db_dir _ _ _ _ Hopen Hscan Hpairs) as Hmain.
  assert (only is_scan_event t1) as H1.
  { pose proof (get_wiredtiger_db_files_events w) as H. now rewrite Hscan in H. }
  assert (only is_scan_event t2) as H2.
  { pose proof (get_mirrors_events w db_dir db_files) as H.
    now rewrite Hpairs in H. }
  assert (trace (main w [db_dir])
          = [ConnOpen db_dir "readonly"] ++ t1 ++ t2 ++ [ConnClose]
            ++ trace (validate_and_report w db_dir mirrors)) as Ht
    by (rewrite Hmain; reflexivity).
  assert (result (main w [db_dir])
          = result (validate_and_report w db_dir mirrors)) as Hr
    by (rewrite Hmain; reflexivity).
  rewrite Ht, Hr, !printed_app, !compared_app.
  rewrite (printed_scan _ H1), (printed_scan _ H2).
  rewrite (compared_scan _ H1), (compared_scan _ H2).
  repeat split.
Qed.

(** X17.  An exception of the comparison utility other than SystemExit
    ends the run at once: it leaves [main], the pairs after the failing one
    are never compared, and no summary is printed; only the mismatch lines
    of the earlier pairs are on standard output. *)
Theorem main_comparison_aborts (w : world) (db_dir : string)
    (t1 t2 : list event) (db_files : list string)
    (before after : list mirror_pair) (item : mirror_pair) (e : exn) :
  w_open w db_dir = Ret tt ->
  get_wiredtiger_db_files w = (t1, Ret db_files) ->
  get_mirrors w db_dir db_files = (t2, Ret (before ++ item :: after)) ->
  Forall (fun item => ends_by_exit w item = true) before ->
  cmp_end (w_compare w item) = Raise e ->
  (forall code, e <> SystemExit code) ->
  result (main w [db_dir]) = Raise e /\
  compared (trace (main w [db_dir])) = before ++ [item] /\
  printed (trace (main w [db_dir]))
  = map (fun item => "Mirror mismatch " +:+ str_of_item item +:+ ": None")
        (List.filter (mismatched w) before).
Proof.
  intros Hopen Hscan Hpairs Hbefore Hend Hfatal.
  destruct (main_after_scan w db_dir _ _ _ _ Hopen Hscan Hpairs)
    as (-> & -> & ->).
  destruct (validate_loop_fatal w before after item e Hbefore Hend Hfatal 0)
    as (Hr & Hc & Hp).
  unfold validate_and_report. rewrite result_bind, trace_bind, Hr.
  split; [reflexivity |]. split; [exact Hc | exact Hp].
Qed.

Lemma main_comparison_aborts_witness :
  result (main (healthy_world orders_keys orders_catalog
                  (fun _ => {| cmp_text := "";
                               cmp_end := Raise (Exc "WiredTigerError") |}))
            ["db"])
  = Raise (Exc "WiredTigerError") /\
  compared (trace (main (healthy_world orders_keys orders_catalog
                  (fun _ => {| cmp_text := "";
                               cmp_end := Raise (Exc "WiredTigerError") |}))
            ["db"]))
  = [] ++ [(table_uri "db" "orders", table_uri "db" "orders_mirror")] /\
  printed (trace (main (healthy_world orders_keys orders_catalog
                  (fun _ => {| cmp_text := "";
                               cmp_end := Raise (Exc "WiredTigerError") |}))
            ["db"]))
  = [].
Proof.
  apply (main_comparison_aborts
           (healthy_world orders_keys orders_catalog
              (fun _ => {| cmp_text := "";
                           cmp_end := Raise (Exc "WiredTigerError") |}))
           "db" _ _ ["orders"; "orders_mirror"] [] []
           (table_uri "db" "orders", table_uri "db" "orders_mirror")
           (Exc "WiredTigerError") eq_refl eq_refl eq_refl).
  - apply Forall_nil_2.
  - reflexivity.
  - discriminate.
Defined.

(** X18.  A failure of the open, of the catalog scan or of the pair
    collection ends the run with that exception: nothing is printed, no
    pair is compared, and the connection, if it was opened, is never
    closed. *)
Theorem main_scan_failure (w : world) (db_dir : string) (e : exn) :
  scan_fails w db_dir e ->
  result (main w [db_dir]) = Raise e /\
  printed (trace (main w [db_dir])) = [] /\
  compared (trace (main w [db_dir])) = [] /\
  count_events is_conn_close (trace (main w [db_dir])) = 0.
Proof.
  intros Hfails.
  assert (forall t, only is_scan_event t ->
            printed (ConnOpen db_dir "readonly" :: t) = [] /\
            compared (ConnOpen db_dir "readonly" :: t) = [] /\
            count_events is_conn_close (ConnOpen db_dir "readonly" :: t) = 0)
    as Hquiet.
  { intros t Ht. change (ConnOpen db_dir "readonly" :: t)
      with ([ConnOpen db_dir "readonly"] ++ t).
    rewrite printed_app, compared_app, count_events_app.
    rewrite (printed_scan _ Ht), (compared_scan _ Ht).
    rewrite (count_events_none is_scan_event is_conn_close t);
      [repeat split | intros []; (discriminate || reflexivity) | exact Ht]. }
  destruct Hfails as [Hopen | (Hopen & [Hscan | (db_files & Hscan & Hpairs)])].
  - unfold main. cbn [length Nat.eqb negb]. rewrite Hopen. repeat split.
  - pose proof (get_wiredtiger_db_files_events w) as Hevents.
    destruct (get_wiredtiger_db_files w) as [t1 r] eqn:Hrun.
    unfold result in Hscan. cbn [snd] in Hscan. subst r.
    unfold trace in Hevents. cbn [fst] in Hevents.
    unfold main. cbn [length Nat.eqb negb]. rewrite Hopen, Hrun.
    cbn [bind ret lift emit fst snd app trace result].
    split; [reflexivity | now apply Hquiet].
  - pose proof (get_wiredtiger_db_files_events w) as Hevents1.
    pose proof (get_mirrors_events w db_dir db_files) as Hevents2.
    destruct (get_wiredtiger_db_files w) as [t1 r1] eqn:Hrun1.
    unfold result in Hscan. cbn [snd] in Hscan. subst r1.
    destruct (get_mirrors w db_dir db_files) as [t2 r2] eqn:Hrun2.
    unfold result in Hpairs. cbn [snd] in Hpairs. subst r2.
    unfold trace in Hevents1, Hevents2. cbn [fst] in Hevents1, Hevents2.
    unfold main. cbn [length Nat.eqb negb]. rewrite Hopen, Hrun1.
    cbn [bind ret lift emit fst snd app trace result]. rewrite Hrun2.
    cbn [bind ret lift emit fst snd app trace result].
    split; [reflexivity |]. apply Hquiet. apply Forall_app. now split.
Qed.

Lemma main_scan_failure_witness :
  result (main failing_scan_world ["db"]) = Raise (Exc "WiredTigerError") /\
  printed (trace (main failing_scan_world ["db"])) = [] /\
  compared (trace (main failing_scan_world ["db"])) = [] /\
  count_events is_conn_close (trace (main failing_scan_world ["db"])) = 0.
Proof.
  apply (main_scan_failure failing_scan_world "db" (Exc "WiredTigerError")).
  right. split; [reflexivity |]. left. reflexivity.
Defined.

(** X19.  The whole output of a run whose scan completes and whose
    comparisons all return or exit: every pair is compared once, in order;
    standard output holds one mismatch line per failed pair, in order,
    followed by the summary, which counts the failed pairs and all pairs;
    the run ends with SystemExit 1 when a pair failed and 0 otherwise. *)
Theorem main_output (w : world) (db_dir : string) (t1 t2 : list event)
    (db_files : list string) (mirrors : list mirror_pair) :
  w_open w db_dir = Ret tt ->
  get_wiredtiger_db_files w = (t1, Ret db_files) ->
  get_mirrors w db_dir db_files = (t2, Ret mirrors) ->
  Forall (fun item => ends_by_exit w item = true) mirrors ->
  let failed := List.filter (mismatched w) mirrors in
  compared (trace (main w [db_dir])) = mirrors /\
  printed (trace (main w [db_dir]))
  = map (fun item => "Mirror mismatch " +:+ str_of_item item +:+ ": None") failed
    ++ [if (length failed =? 0)%nat
        then success_line (length mirrors) db_dir
        else failure_line (length failed) (length mirrors) db_dir] /\
  result (main w [db_dir])
  = Raise (SystemExit (CodeInt (if (0 <? length failed)%nat then 1 else 0))).
Proof.
  intros Hopen Hscan Hpairs Hall failed.
  destruct (main_after_scan w db_dir _ _ _ _ Hopen Hscan Hpairs)
    as (-> & -> & ->).
  destruct (validate_loop_run w mirrors Hall 0) as (Hr & Hp & Hc).
  destruct (validate_loop w mirrors 0) as [t3 r] eqn:Hloop.
  unfold result in Hr. unfold trace in Hp, Hc. cbn [fst snd] in Hr, Hp, Hc.
  cbn [Nat.add] in Hr. subst r. fold failed in Hloop, Hp.
  rewrite (validate_and_report_run w db_dir mirrors t3 (length failed) Hloop).
  unfold trace, result. cbn [fst snd].
  rewrite compared_app, printed_app, Hc, Hp.
  split; [apply app_nil_r |]. split; reflexivity.
Qed.

Lemma main_output_witness :
  compared (trace (main (healthy_world orders_keys orders_catalog compare_mismatch)
                     ["db"]))
  = [(table_uri "db" "orders", table_uri "db" "orders_mirror")] /\
  printed (trace (main (healthy_world orders_keys orders_catalog compare_mismatch)
                    ["db"]))
  = ["Mirror mismatch ['db/table:orders', 'db/table:orders_mirror']: None";
     "Mirrored table validation failed for 1 of 1 table mirrors in database directory 'db'."] /\
  result (main (healthy_world orders_keys orders_catalog compare_mismatch) ["db"])
  = Raise (SystemExit (CodeInt 1)).
Proof.
  apply (main_output (healthy_world orders_keys orders_catalog compare_mismatch)
           "db" _ _ ["orders"; "orders_mirror"]
           [(table_uri "db" "orders", table_uri "db" "orders_mirror")]
           eq_refl eq_refl eq_refl).
  apply Forall_cons_2; [reflexivity | apply Forall_nil_2].
Defined.
